(** * Q4 scientific core: projector learning, quadrant split, energy
    accounting, SVD model persistence and Q_study features.

    Shallow embedding of [src/src/fargate/q4/operator.py],
    [src/src/fargate/q4/svd_ops.py] and [src/src/fargate/q4/qstudy_map.py].

    Numbers: numpy float64 arithmetic is modelled by exact rationals [Q];
    equalities between entries are [Qeq] (exact equality of rationals).
    A 2-D numpy array is a shape together with its entry function. *)

From Stdlib Require Import QArith Qabs Qround Qminmax ZArith List Permutation
  Arith Lia Bool String Ascii.
Import ListNotations.

Open Scope Q_scope.

(** ** Two-dimensional arrays *)

Record mat := Mat { nrows : nat; ncols : nat; get : nat -> nat -> Q }.

(** [sumQ n f] = f 0 + ... + f (n-1), numpy's [.sum()] over one axis. *)
Fixpoint sumQ (n : nat) (f : nat -> Q) : Q :=
  match n with
  | O => 0
  | S m => sumQ m f + f m
  end.

(** [A @ B] (the inner dimensions are the caller's responsibility). *)
Definition matmul (A B : mat) : mat :=
  Mat (nrows A) (ncols B)
      (fun i j => sumQ (ncols A) (fun l => get A i l * get B l j)).

(** [A.T] *)
Definition transpose (A : mat) : mat :=
  Mat (ncols A) (nrows A) (fun i j => get A j i).

(** [A + B], [A - B] on arrays of equal shape. *)
Definition madd (A B : mat) : mat :=
  Mat (nrows A) (ncols A) (fun i j => get A i j + get B i j).

Definition msub (A B : mat) : mat :=
  Mat (nrows A) (ncols A) (fun i j => get A i j - get B i j).

(** [A / c] for a scalar [c]. *)
Definition mdiv (A : mat) (c : Q) : mat :=
  Mat (nrows A) (ncols A) (fun i j => get A i j / c).

(** [np.eye(d)] *)
Definition eye (d : nat) : mat :=
  Mat d d (fun i j => if Nat.eqb i j then 1 else 0).

(** [np.zeros((n, d))] *)
Definition zeros (n d : nat) : mat := Mat n d (fun _ _ => 0).

(** [A[:r]] for a non-negative [r]: the first [min r rows] rows. *)
Definition rows_upto (r : nat) (A : mat) : mat :=
  Mat (Nat.min r (nrows A)) (ncols A) (get A).

Definition Q_of_nat (n : nat) : Q := inject_Z (Z.of_nat n).

(** [A.mean(axis=0)] as a function of the column (numpy yields NaN on zero
    rows; here the empty mean is 0). *)
Definition col_mean (A : mat) (j : nat) : Q :=
  sumQ (nrows A) (fun i => get A i j) / Q_of_nat (nrows A).

(** [(A**2).sum()] *)
Definition sumsq (A : mat) : Q :=
  sumQ (nrows A) (fun i => sumQ (ncols A) (fun j => get A i j * get A i j)).

(** Entrywise equality of two arrays of the same shape. *)
Definition mat_eq (A B : mat) : Prop :=
  nrows A = nrows B /\ ncols A = ncols B /\
  forall i j, (i < nrows A)%nat -> (j < ncols A)%nat -> get A i j == get B i j.

Definition forall_lt (n : nat) (p : nat -> bool) : bool :=
  forallb p (seq 0 n).

Definition mat_eqb (A B : mat) : bool :=
  Nat.eqb (nrows A) (nrows B) && Nat.eqb (ncols A) (ncols B) &&
  forall_lt (nrows A) (fun i =>
    forall_lt (ncols A) (fun j => Qeq_bool (get A i j) (get B i j))).

(** Rows of [A] are orthonormal: the contract of the right factor [Vt]
    returned by [np.linalg.svd(M, full_matrices=False)]. *)
Definition orthonormal_rowsb (A : mat) : bool :=
  forall_lt (nrows A) (fun k =>
    forall_lt (nrows A) (fun m =>
      Qeq_bool (sumQ (ncols A) (fun l => get A k l * get A m l))
               (if Nat.eqb k m then 1 else 0))).

(** ** operator.py: [learn_projectors_linear] *)

(** [np.unique(labels)]: the distinct labels in increasing order. *)
Fixpoint insert_sorted (x : Z) (l : list Z) : list Z :=
  match l with
  | [] => [x]
  | y :: t => if Z.leb x y then x :: l else y :: insert_sorted x t
  end.

Definition np_unique (l : list Z) : list Z :=
  fold_right (fun x acc => if existsb (Z.eqb x) acc then acc
                           else insert_sorted x acc) [] l.

(** [X[labels==c].mean(axis=0)] at column [j]. *)
Definition class_mean (X : mat) (labels : list Z) (c : Z) (j : nat) : Q :=
  let sel i := Z.eqb (nth i labels 0%Z) c in
  sumQ (nrows X) (fun i => if sel i then get X i j else 0) /
  Q_of_nat (List.length (filter sel (seq 0 (nrows X)))).

(** [M = np.vstack([X[labels==c].mean(axis=0)-mu for c in classes])]. *)
Definition class_diff_matrix (X : mat) (labels : list Z) : mat :=
  let classes := np_unique labels in
  Mat (List.length classes) (ncols X)
      (fun i j => class_mean X labels (nth i classes 0%Z) j - col_mean X j).

(** [Xc = X - X.mean(axis=0, keepdims=True)] *)
Definition center_cols (X : mat) : mat :=
  Mat (nrows X) (ncols X) (fun i j => get X i j - col_mean X j).

(** The matrix handed to [np.linalg.svd] in each mode. *)
Definition svd_input (X : mat) (labels : option (list Z)) : mat :=
  match labels with
  | Some ls => class_diff_matrix X ls
  | None => center_cols X
  end.

Section Learn.

(** [np.linalg.svd(M, full_matrices=False)[2]], the right factor [Vt]. *)
Variable svd_Vt : mat -> mat.

Definition learn_projectors_linear (X : mat) (labels : option (list Z))
    (r : nat) : mat * mat :=
  let d := ncols X in
  let Vt := svd_Vt (svd_input X labels) in
  let Bv := transpose (rows_upto r Vt) in
  let Pv := matmul Bv (transpose Bv) in
  let Pv := mdiv (madd Pv (transpose Pv)) 2 in
  let Ps := msub (eye d) Pv in
  (Ps, Pv).

End Learn.

(** A thin right factor with orthonormal rows for every input: the first
    [min m d] rows of the identity.  Used to run the definitions. *)
Definition svd_std (M : mat) : mat :=
  Mat (Nat.min (nrows M) (ncols M)) (ncols M)
      (fun k l => if Nat.eqb k l then 1 else 0).

(** The [Pv] that [learn_projectors_linear] builds from [Vt]: lines 16-18
    of operator.py with [Bv = Vt[:r].T]. *)
Definition pv_of (r : nat) (Vt : mat) : mat :=
  let Bv := transpose (rows_upto r Vt) in
  let Pv := matmul Bv (transpose Bv) in
  mdiv (madd Pv (transpose Pv)) 2.

(** [Bv @ Bv.T] at [(i, j)]: the sum over the kept rows of [Vt]. *)
Definition gram (r : nat) (Vt : mat) (i j : nat) : Q :=
  sumQ (Nat.min r (nrows Vt)) (fun k => get Vt k i * get Vt k j).

(** ** operator.py: [energy_split] *)

Definition energy_eps : Q := 1 # 1000000000000.

Definition energy_split (X Ps Pv : mat) : Q :=
  let S := matmul X Ps in
  let V := matmul X Pv in
  let num := sumsq S + sumsq V in
  let den := sumsq X + energy_eps in
  num / den.

(** ** operator.py: [four_quadrants] *)

(** [np.linalg.norm(A[i]) > tol], compared through squares:
    [sqrt(s) > tol] iff [s > tol^2] for [tol > 0]. *)
Definition norm_exceeds (tol : Q) (A : mat) (i : nat) : bool :=
  negb (Qle_bool (sumQ (ncols A) (fun j => get A i j * get A i j)) (tol * tol)).

Definition count_rows (p : nat -> bool) (n : nat) : nat :=
  List.length (filter p (seq 0 n)).

(** A Python value produced by [.tolist()] on a float array: a float for a
    0-d array, a list for a 1-d one. *)
Inductive pyvalue := PyFloat (x : Q) | PyList (l : list Q).

(** [a.squeeze().tolist()] for an array [a] of shape [(1, d)]: the axes of
    length one are dropped, so [d = 1] leaves a 0-d array. *)
Definition squeeze_tolist (row : list Q) : pyvalue :=
  match row with
  | [x] => PyFloat x
  | _ => PyList row
  end.

(** The object [type("Q", (), {...})] built by [four_quadrants]. *)
Record QuadrantResult := {
  S_ : mat;  (** attribute [S] *)
  V_ : mat;  (** attribute [V] *)
  Q_keep : mat;
  Q_discard : mat;
  mu_V : pyvalue;
  rate : Q;
  Archive : mat * mat
}.

Definition four_quadrants (X Ps Pv : mat) : QuadrantResult :=
  let S := matmul X (transpose Ps) in
  let V := matmul X (transpose Pv) in
  let muV := col_mean V in
  let Q_keep := S in
  let Q_discard := Mat (nrows V) (ncols V) (fun i j => get V i j - muV j) in
  let rate := Q_of_nat (count_rows (norm_exceeds (1 # 100000000) Q_discard)
                                   (nrows Q_discard))
              / Q_of_nat (nrows Q_discard) in
  {| S_ := S; V_ := V; Q_keep := Q_keep; Q_discard := Q_discard;
     mu_V := squeeze_tolist (map muV (seq 0 (ncols V))); rate := rate;
     Archive := (S, V) |}.

(** ** qstudy_map.py: [compute_qstudy_vectors] *)

(** [str(n)] in decimal. *)
Fixpoint nat_str_aux (fuel n : nat) (acc : string) : string :=
  match fuel with
  | O => acc
  | S f =>
      let acc' := String (ascii_of_nat (48 + n mod 10)%nat) acc in
      match (n / 10)%nat with
      | O => acc'
      | m => nat_str_aux f m acc'
      end
  end.

Definition nat_str (n : nat) : string := nat_str_aux (S n) n EmptyString.

(** [f"comp{i}" + suffix] *)
Definition comp_key (i : nat) (suffix : string) : string :=
  append "comp" (append (nat_str i) suffix).

Fixpoint insert_Q (x : Q) (l : list Q) : list Q :=
  match l with
  | [] => [x]
  | y :: t => if Qle_bool x y then x :: l else y :: insert_Q x t
  end.

Definition sort_Q (l : list Q) : list Q := fold_right insert_Q [] l.

(** [np.quantile(v, q)] with numpy's default [method="linear"]:
    virtual index [h = q (n-1)], interpolation between the sorted values
    at [floor h] and [min (floor h + 1) (n-1)]. *)
Definition np_quantile (l : list Q) (q : Q) : Q :=
  let v := sort_Q l in
  let n := List.length v in
  let h := q * Q_of_nat (n - 1) in
  let lo := Z.to_nat (Qfloor h) in
  let hi := Nat.min (lo + 1) (n - 1) in
  let g := h - inject_Z (Qfloor h) in
  nth lo v 0 + g * (nth hi v 0 - nth lo v 0).

(** [A[:, j]] as a list. *)
Definition col_list (A : mat) (j : nat) : list Q :=
  map (fun i => get A i j) (seq 0 (nrows A)).

(** [np.abs(A)] *)
Definition mabs (A : mat) : mat :=
  Mat (nrows A) (ncols A) (fun i j => Qabs (get A i j)).

(** [tau = np.quantile(np.abs(Z), tail_q, axis=0)] at column [j]. *)
Definition tau (Z : mat) (tail_q : Q) (j : nat) : Q :=
  np_quantile (col_list (mabs Z) j) tail_q.

(** [frac_tail = (np.abs(Z) > tau).mean(axis=0)] at column [j]. *)
Definition frac_tail (Z : mat) (tail_q : Q) (j : nat) : Q :=
  Q_of_nat (count_rows (fun i => negb (Qle_bool (Qabs (get Z i j))
                                                 (tau Z tail_q j)))
                       (nrows Z)) / Q_of_nat (nrows Z).

Definition mean_over (k : nat) (f : nat -> Q) : Q := sumQ k f / Q_of_nat k.

Definition base_keys : list string :=
  ["mean_absV"; "std_mean"; "frac_tail_mean"; "energy"]%string.

Section QStudy.

(** [np.sqrt] on the variance. *)
Variable sqrtQ : Q -> Q.

(** [Z.std(axis=0, ddof=1)] at column [j] (numpy yields NaN for one row;
    here the division by [0] gives 0). *)
Definition col_std (Z : mat) (j : nat) : Q :=
  sqrtQ (sumQ (nrows Z) (fun i => (get Z i j - col_mean Z j) *
                                  (get Z i j - col_mean Z j))
         / Q_of_nat (nrows Z - 1)).

(** The one-row frame [pd.DataFrame([feats])] as the list of its columns
    in insertion order.  [np.quantile] raises on an empty column or on
    [tail_q] outside [[0, 1]]: [None]. *)
Definition compute_qstudy_vectors (Z : mat) (tail_q : Q)
    : option (list (string * Q)) :=
  if Nat.eqb (nrows Z) 0 || negb (Qle_bool 0 tail_q && Qle_bool tail_q 1)
  then None
  else
    let n := nrows Z in
    let k := ncols Z in
    let energy := sumQ n (fun i => sumQ k (fun j => get Z i j * get Z i j))
                  / Q_of_nat n in
    let feats :=
      [("mean_absV", sumQ n (fun i => sumQ k (fun j => Qabs (get Z i j)))
                     / Q_of_nat (n * k));
       ("std_mean", mean_over k (col_std Z));
       ("frac_tail_mean", mean_over k (frac_tail Z tail_q));
       ("energy", energy)]%string in
    Some (feats ++
          flat_map (fun i => [(comp_key i "_mean", col_mean Z i);
                              (comp_key i "_std", col_std Z i);
                              (comp_key i "_tail", frac_tail Z tail_q i)]%string)
                   (seq 0 (Nat.min 6 k))).

End QStudy.

(** ** svd_ops.py: [SVDModel.save] and [SVDModel.load] *)

Module Persist.

Local Open Scope string_scope.

(** A numpy array as [np.save] writes it: its shape and its data.  The
    [.npy] format stores the raw float64 bytes, so saving and loading
    preserve the values exactly. *)
Record ndarray := mk_ndarray { shape : list nat; data : list Q }.

Record SVDModel := mk_SVDModel {
  mu : ndarray;
  components : ndarray;
  explained_var : ndarray
}.

Inductive file := NpyFile (a : ndarray) | TextFile (s : string).

Inductive entry := Dir | File (f : file).

(** The file system, path by path: a directory is a path mapped to [Dir];
    the ancestors of a path are read off its separators (symbolic links
    are not modelled). *)
Definition fs := string -> option entry.

Inductive io_error :=
| FileExistsError
| IsADirectoryError
| FileNotFoundError
| ValueError       (** [np.load] of a file that is not [.npy] data *)
| IndexError       (** [shape[0]] of a 0-d array *)
| NotADirectoryError.  (** a path through an existing regular file *)

Inductive result (A : Type) := Ok (a : A) | Err (e : io_error).
Arguments Ok {A} a.
Arguments Err {A} e.

(** State and error: the file system threaded through every call; an
    exception keeps the writes made before it. *)
Definition io (A : Type) := fs -> result A * fs.

Definition ret {A} (a : A) : io A := fun s => (Ok a, s).

Definition raise {A} (e : io_error) : io A := fun s => (Err e, s).

Definition bind {A B} (m : io A) (k : A -> io B) : io B :=
  fun s => match m s with
           | (Ok a, s') => k a s'
           | (Err e, s') => (Err e, s')
           end.

Local Notation "x <- m ;; k" := (bind m (fun x => k))
  (at level 61, m at next level, right associativity).

Local Notation "m ;;; k" := (bind m (fun _ => k))
  (at level 61, right associativity).

Definition update (s : fs) (k : string) (v : option entry) : fs :=
  fun k' => if String.eqb k' k then v else s k'.

(** [path / name] *)
Definition join (p name : string) : string := p ++ "/" ++ name.

(** [path.mkdir(parents=True, exist_ok=True)] *)
Definition is_file (e : option entry) : bool :=
  match e with Some (File _) => true | _ => false end.

(** The proper ancestors of a path: its prefixes that end just before a
    ["/"], outermost first. *)
Fixpoint parents_aux (acc p : string) : list string :=
  match p with
  | EmptyString => []
  | String c rest =>
      let acc' := acc ++ String c EmptyString in
      if Ascii.eqb c "/"%char then acc :: parents_aux acc' rest
      else parents_aux acc' rest
  end.

Definition parents (p : string) : list string := parents_aux "" p.

(** Create, outermost first, each ancestor that does not exist yet. *)
Definition make_parents (s : fs) (qs : list string) : fs :=
  fold_left (fun s q => match s q with
                        | None => update s q (Some Dir)
                        | Some _ => s
                        end) qs s.

(** [path.mkdir(parents=True, exist_ok=True)]: an existing directory is
    accepted and an existing file raises [FileExistsError]; otherwise
    [os.mkdir] resolves the ancestors, so a regular file among them raises
    [NotADirectoryError] before anything is created, and the missing ones
    are created before [path]. *)
Definition mkdir (p : string) : io unit :=
  fun s => match s p with
           | Some (File _) => (Err FileExistsError, s)
           | Some Dir => (Ok tt, s)
           | None =>
               if existsb (fun q => is_file (s q)) (parents p)
               then (Err NotADirectoryError, s)
               else (Ok tt, update (make_parents s (parents p)) p (Some Dir))
           end.

Definition write_file (k : string) (f : file) : io unit :=
  fun s => match s k with
           | Some Dir => (Err IsADirectoryError, s)
           | _ => (Ok tt, update s k (Some (File f)))
           end.

(** [np.save(k, a)] and [np.load(k)] (default [allow_pickle=False]). *)
Definition np_save (k : string) (a : ndarray) : io unit :=
  write_file k (NpyFile a).

Definition np_load (k : string) : io ndarray :=
  fun s => match s k with
           | Some (File (NpyFile a)) => (Ok a, s)
           | Some (File (TextFile _)) => (Err ValueError, s)
           | Some Dir => (Err IsADirectoryError, s)
           | None => (Err FileNotFoundError, s)
           end.

(** [int(a.shape[0])] *)
Definition shape0 (a : ndarray) : io nat :=
  match shape a with
  | [] => raise IndexError
  | d :: _ => ret d
  end.

Definition dq : string := String (ascii_of_nat 34) EmptyString.
Definition nl : string := String (ascii_of_nat 10) EmptyString.

(** [json.dumps({"dims": dims, "k": k}, indent=2)] *)
Definition json_meta (dims k : nat) : string :=
  "{" ++ nl ++ "  " ++ dq ++ "dims" ++ dq ++ ": " ++ nat_str dims ++ "," ++ nl
  ++ "  " ++ dq ++ "k" ++ dq ++ ": " ++ nat_str k ++ nl ++ "}".

Definition save (m : SVDModel) (path : string) : io unit :=
  mkdir path ;;;
  np_save (join path "mu.npy") (mu m) ;;;
  np_save (join path "components.npy") (components m) ;;;
  np_save (join path "explained_var.npy") (explained_var m) ;;;
  dims <- shape0 (mu m) ;;
  k <- shape0 (components m) ;;
  write_file (join path "meta.json") (TextFile (json_meta dims k)).

Definition load (path : string) : io SVDModel :=
  mu <- np_load (join path "mu.npy") ;;
  comps <- np_load (join path "components.npy") ;;
  ev <- np_load (join path "explained_var.npy") ;;
  ret (mk_SVDModel mu comps ev).

(** A model fitted with [k = 1] on two columns, and an empty disk. *)
Definition demo_model : SVDModel :=
  mk_SVDModel (mk_ndarray [2%nat] [0; 0])
              (mk_ndarray [1%nat; 2%nat] [3 # 5; 4 # 5])
              (mk_ndarray [1%nat] [7 # 4]).

Definition empty_fs : fs := fun _ => None.

End Persist.

(** ** svd_ops.py: [center_l2], [fit_svd] and [project] *)

Section Center.

(** [np.sqrt], through which [np.linalg.norm] computes a row norm. *)
Variable sqrtQ : Q -> Q.

(** [np.linalg.norm(A, axis=1, keepdims=True)] at row [i]. *)
Definition row_norm (A : mat) (i : nat) : Q :=
  sqrtQ (sumQ (ncols A) (fun j => get A i j * get A i j)).

Definition norm_floor : Q := 1 # 1000000000.

(** [center_l2(V, mu)]: the optional [mu] is [None] or a row vector; the
    result is the pair [(Vn, mu)]. *)
Definition center_l2 (V : mat) (mu : option (nat -> Q)) : mat * (nat -> Q) :=
  let mu := match mu with Some m => m | None => col_mean V end in
  let Vc := Mat (nrows V) (ncols V) (fun i j => get V i j - mu j) in
  let Vn := Mat (nrows Vc) (ncols Vc)
                (fun i j => get Vc i j / Qmax (row_norm Vc i) norm_floor) in
  (Vn, mu).

End Center.

(** [project(V, model)] with [model.mu] and [model.components]. *)
Definition project (V : mat) (mu : nat -> Q) (components : mat) : mat :=
  let Vc := Mat (nrows V) (ncols V) (fun i j => get V i j - mu j) in
  matmul Vc (transpose components).

(** The scikit-learn estimator [fit_svd] constructs, with the arguments it
    passes. *)
Inductive estimator :=
| TruncatedSVD_randomized (n_components : nat) (random_state : Z)
    (** [TruncatedSVD(n_components=k, algorithm="randomized", random_state=seed)] *)
| IncrementalPCA (n_components batch_size : nat)
    (** [IncrementalPCA(n_components=k, batch_size=min(1000, n // 4))] *)
| TruncatedSVD_default (n_components : nat) (random_state : Z).
    (** [TruncatedSVD(n_components=k, random_state=seed)] *)

(** Lines 59-90 of svd_ops.py: [method] is rewritten when it is ["auto"],
    then dispatched; every other string takes the [else] branch. *)
Definition svd_estimator (method : string) (n d k : nat) (seed : Z)
    : estimator :=
  let method :=
    if String.eqb method "auto" then
      if (10000 <? n)%nat || (1000 <? d)%nat then "randomized"%string
      else if (2000 <? n)%nat then "incremental"%string
      else "truncated"%string
    else method in
  if String.eqb method "randomized" then TruncatedSVD_randomized k seed
  else if String.eqb method "incremental" then
    IncrementalPCA k (Nat.min 1000 (n / 4))
  else TruncatedSVD_default k seed.

Section Fit.

(** [est.fit_transform(Vn)] followed by [(est.components_,
    est.explained_variance_)]. *)
Variable fit_estimator : estimator -> mat -> Persist.ndarray * Persist.ndarray.

Definition fit_svd (Vn : mat) (k : nat) (seed : Z) (method : string)
    : Persist.SVDModel :=
  let n := nrows Vn in
  let d := ncols Vn in
  let '(comps, ev) := fit_estimator (svd_estimator method n d k seed) Vn in
  Persist.mk_SVDModel (Persist.mk_ndarray [d] (repeat 0 d)) comps ev.

End Fit.

(** ** Concrete inputs *)

(** A fixed SVD right factor with orthonormal rows [(3/5, 4/5)] and
    [(-4/5, 3/5)]. *)
Definition rot_Vt : mat :=
  Mat 2 2 (fun k l =>
    match k, l with
    | O, O => 3 # 5 | O, _ => 4 # 5
    | _, O => Qmake (-4) 5 | _, _ => 3 # 5
    end).

(** A 3 x 2 observation matrix. *)
Definition X_demo : mat := Mat 3 2 (fun i j => Q_of_nat (i * 2 + j * j)).

(** ** Proofs *)

(** *** Sums *)

Lemma sumQ_ext_lt : forall n f g,
  (forall l, (l < n)%nat -> f l == g l) -> sumQ n f == sumQ n g.
Proof.
  induction n as [|n IH]; intros f g H; simpl.
  - reflexivity.
  - rewrite (IH f g) by (intros; apply H; lia).
    rewrite (H n) by lia. reflexivity.
Qed.

Lemma sumQ_plus : forall n f g,
  sumQ n (fun l => f l + g l) == sumQ n f + sumQ n g.
Proof.
  induction n as [|n IH]; intros f g; simpl.
  - reflexivity.
  - rewrite IH. ring.
Qed.

Lemma sumQ_minus : forall n f g,
  sumQ n (fun l => f l - g l) == sumQ n f - sumQ n g.
Proof.
  induction n as [|n IH]; intros f g; simpl.
  - reflexivity.
  - rewrite IH. ring.
Qed.

Lemma sumQ_scal_l : forall n c f,
  c * sumQ n f == sumQ n (fun l => c * f l).
Proof.
  induction n as [|n IH]; intros c f; simpl.
  - ring.
  - rewrite <- IH. ring.
Qed.

Lemma sumQ_scal_r : forall n c f,
  sumQ n f * c == sumQ n (fun l => f l * c).
Proof.
  induction n as [|n IH]; intros c f; simpl.
  - ring.
  - rewrite <- IH. ring.
Qed.

Lemma sumQ_zero : forall n f,
  (forall l, (l < n)%nat -> f l == 0) -> sumQ n f == 0.
Proof.
  intros n f H. rewrite (sumQ_ext_lt n f (fun _ => 0)) by exact H.
  induction n as [|n IH]; simpl; [reflexivity|].
  rewrite IH by (intros; apply H; lia). ring.
Qed.

Lemma sumQ_swap : forall n m (f : nat -> nat -> Q),
  sumQ n (fun a => sumQ m (fun b => f a b)) ==
  sumQ m (fun b => sumQ n (fun a => f a b)).
Proof.
  induction n as [|n IH]; intros m f; simpl.
  - symmetry. apply sumQ_zero. intros. reflexivity.
  - rewrite IH. rewrite <- sumQ_plus. reflexivity.
Qed.

(** Only the [i]-th term survives. *)
Lemma sumQ_delta : forall n i f,
  (i < n)%nat -> sumQ n (fun l => if Nat.eqb i l then f l else 0) == f i.
Proof.
  induction n as [|n IH]; intros i f Hi; simpl; [lia|].
  destruct (Nat.eqb i n) eqn:E.
  - apply Nat.eqb_eq in E; subst.
    rewrite (sumQ_zero n). { ring. }
    intros l Hl. destruct (Nat.eqb n l) eqn:E'; [apply Nat.eqb_eq in E'; lia|reflexivity].
  - apply Nat.eqb_neq in E. rewrite IH by lia. ring.
Qed.

Lemma forall_lt_spec : forall n p,
  forall_lt n p = true <-> (forall i, (i < n)%nat -> p i = true).
Proof.
  intros n p. unfold forall_lt. rewrite forallb_forall.
  split; intros H i Hi.
  - apply H. apply in_seq. lia.
  - apply in_seq in Hi. apply H. lia.
Qed.

(** *** Projector pair *)

Lemma orthonormal_rowsb_spec : forall V,
  orthonormal_rowsb V = true ->
  forall k m, (k < nrows V)%nat -> (m < nrows V)%nat ->
  sumQ (ncols V) (fun l => get V k l * get V m l) ==
  (if Nat.eqb k m then 1 else 0).
Proof.
  intros V H k m Hk Hm. unfold orthonormal_rowsb in H.
  rewrite forall_lt_spec in H. specialize (H k Hk).
  rewrite forall_lt_spec in H. specialize (H m Hm).
  apply Qeq_bool_iff in H. exact H.
Qed.

Lemma learn_projectors_linear_unfold : forall svd X labels r,
  learn_projectors_linear svd X labels r =
  (msub (eye (ncols X)) (pv_of r (svd (svd_input X labels))),
   pv_of r (svd (svd_input X labels))).
Proof. reflexivity. Qed.

Lemma pv_of_nrows : forall r V, nrows (pv_of r V) = ncols V.
Proof. reflexivity. Qed.

Lemma pv_of_ncols : forall r V, ncols (pv_of r V) = ncols V.
Proof. reflexivity. Qed.

(** The symmetrisation [(Pv + Pv.T)/2] leaves [Bv @ Bv.T] unchanged. *)
Lemma pv_of_get : forall r V i j, get (pv_of r V) i j == gram r V i j.
Proof.
  intros r V i j. unfold pv_of, gram. simpl.
  rewrite (sumQ_ext_lt _ (fun l => get V l j * get V l i)
                         (fun l => get V l i * get V l j))
    by (intros; ring).
  field.
Qed.

Lemma gram_sym : forall r V i j, gram r V i j == gram r V j i.
Proof.
  intros. unfold gram. apply sumQ_ext_lt. intros. ring.
Qed.

(** Orthonormal rows make [Bv @ Bv.T] idempotent. *)
Lemma gram_idem : forall r V i j,
  orthonormal_rowsb V = true ->
  sumQ (ncols V) (fun l => gram r V i l * gram r V l j) == gram r V i j.
Proof.
  intros r V i j Horth. unfold gram.
  set (r' := Nat.min r (nrows V)).
  assert (Hr : (r' <= nrows V)%nat) by (unfold r'; lia).
  transitivity (sumQ (ncols V) (fun l => sumQ r' (fun k => sumQ r' (fun m =>
                  (get V k i * get V m j) * (get V k l * get V m l))))).
  { apply sumQ_ext_lt. intros l _. rewrite sumQ_scal_r.
    apply sumQ_ext_lt. intros k _. rewrite sumQ_scal_l.
    apply sumQ_ext_lt. intros m _. ring. }
  rewrite sumQ_swap. apply sumQ_ext_lt. intros k Hk.
  rewrite sumQ_swap.
  transitivity (sumQ r' (fun m => if Nat.eqb k m then get V k i * get V m j
                                  else 0)).
  { apply sumQ_ext_lt. intros m Hm.
    rewrite <- sumQ_scal_l.
    rewrite (orthonormal_rowsb_spec V Horth k m) by lia.
    destruct (Nat.eqb k m); ring. }
  rewrite sumQ_delta by lia. reflexivity.
Qed.

Lemma pv_of_idem : forall r V i j,
  orthonormal_rowsb V = true ->
  get (matmul (pv_of r V) (pv_of r V)) i j == get (pv_of r V) i j.
Proof.
  intros r V i j Horth. cbn [matmul get]. rewrite pv_of_ncols.
  rewrite (sumQ_ext_lt _ _ (fun l => gram r V i l * gram r V l j))
    by (intros; rewrite !pv_of_get; reflexivity).
  rewrite gram_idem by exact Horth. rewrite pv_of_get. reflexivity.
Qed.

Lemma eye_delta_l : forall n i f, (i < n)%nat ->
  sumQ n (fun l => (if Nat.eqb i l then 1 else 0) * f l) == f i.
Proof.
  intros n i f Hi.
  rewrite (sumQ_ext_lt _ _ (fun l => if Nat.eqb i l then f l else 0))
    by (intros l _; destruct (Nat.eqb i l); ring).
  apply sumQ_delta; exact Hi.
Qed.

Lemma eye_delta_r : forall n j f, (j < n)%nat ->
  sumQ n (fun l => f l * (if Nat.eqb l j then 1 else 0)) == f j.
Proof.
  intros n j f Hj.
  rewrite (sumQ_ext_lt _ _ (fun l => if Nat.eqb j l then f l else 0)).
  - apply sumQ_delta; exact Hj.
  - intros l _. rewrite (Nat.eqb_sym l j). destruct (Nat.eqb j l); ring.
Qed.

(** [Pv @ Pv] at [(i, j)] within the [d x d] block. *)
Lemma pv_of_idem_sum : forall r V i j,
  orthonormal_rowsb V = true ->
  sumQ (ncols V) (fun l => get (pv_of r V) i l * get (pv_of r V) l j)
  == get (pv_of r V) i j.
Proof.
  intros r V i j H. pose proof (pv_of_idem r V i j H) as E.
  cbn [matmul get] in E. rewrite pv_of_ncols in E. exact E.
Qed.

(** [Ps = I - Pv] is idempotent and annihilates [Pv] when [Pv] is. *)
Lemma complement_idem : forall d (P : nat -> nat -> Q) i j,
  (i < d)%nat -> (j < d)%nat ->
  sumQ d (fun l => P i l * P l j) == P i j ->
  sumQ d (fun l => ((if Nat.eqb i l then 1 else 0) - P i l) *
                   ((if Nat.eqb l j then 1 else 0) - P l j))
  == (if Nat.eqb i j then 1 else 0) - P i j.
Proof.
  intros d P i j Hi Hj HPP.
  rewrite (sumQ_ext_lt _ _
     (fun l => (if Nat.eqb i l then 1 else 0) *
               ((if Nat.eqb l j then 1 else 0) - P l j) -
               (P i l * (if Nat.eqb l j then 1 else 0) - P i l * P l j)))
    by (intros; ring).
  rewrite sumQ_minus, sumQ_minus.
  rewrite (eye_delta_l d i (fun l => (if Nat.eqb l j then 1 else 0) - P l j))
    by exact Hi.
  rewrite (eye_delta_r d j (fun l => P i l)) by exact Hj.
  rewrite HPP. ring.
Qed.

Lemma complement_annihilates : forall d (P : nat -> nat -> Q) i j,
  (i < d)%nat ->
  sumQ d (fun l => P i l * P l j) == P i j ->
  sumQ d (fun l => ((if Nat.eqb i l then 1 else 0) - P i l) * P l j) == 0.
Proof.
  intros d P i j Hi HPP.
  rewrite (sumQ_ext_lt _ _
     (fun l => (if Nat.eqb i l then 1 else 0) * P l j - P i l * P l j))
    by (intros; ring).
  rewrite sumQ_minus, (eye_delta_l d i (fun l => P l j)) by exact Hi.
  rewrite HPP. ring.
Qed.

(** C1.  For every [X] (either mode, any rank [r]) whose SVD right factor
    has orthonormal rows of width [d], the pair [(Ps, Pv)] returned by
    [learn_projectors_linear] satisfies exactly [Ps @ Ps = Ps],
    [Pv @ Pv = Pv], [Ps @ Pv = 0] and [Ps + Pv = I]; and [Ps] is the array
    [I - Pv] itself. *)
Theorem learn_projectors_linear_invariants : forall svd X labels r,
  ncols (svd (svd_input X labels)) = ncols X ->
  orthonormal_rowsb (svd (svd_input X labels)) = true ->
  let d := ncols X in
  let '(Ps, Pv) := learn_projectors_linear svd X labels r in
  mat_eq (matmul Ps Ps) Ps /\ mat_eq (matmul Pv Pv) Pv /\
  mat_eq (matmul Ps Pv) (zeros d d) /\ mat_eq (madd Ps Pv) (eye d) /\
  Ps = msub (eye d) Pv.
Proof.
  intros svd X labels r Hd Horth. cbv zeta.
  rewrite learn_projectors_linear_unfold.
  set (V := svd (svd_input X labels)) in *.
  pose proof (pv_of_idem_sum r V) as HPP.
  rewrite Hd in HPP.
  set (P := pv_of r V) in *.
  assert (HnP : nrows P = ncols X) by (unfold P; rewrite pv_of_nrows; exact Hd).
  assert (HcP : ncols P = ncols X) by (unfold P; rewrite pv_of_ncols; exact Hd).
  split; [|split; [|split; [|split]]].
  - repeat split. cbn [matmul msub eye get nrows ncols]. intros i j Hi Hj.
    apply complement_idem; auto.
  - repeat split. cbn [matmul get nrows ncols]. intros i j Hi Hj.
    rewrite HcP. apply HPP; exact Horth.
  - repeat split; cbn [matmul msub eye zeros get nrows ncols]; [exact HcP|].
    intros i j Hi Hj. rewrite HcP in Hj.
    apply complement_annihilates; auto.
  - repeat split. cbn [madd msub eye get nrows ncols]. intros i j Hi Hj. ring.
  - reflexivity.
Qed.

Lemma learn_projectors_linear_invariants_witness :
  ncols ((fun _ : mat => rot_Vt) (svd_input X_demo None)) = ncols X_demo /\
  orthonormal_rowsb ((fun _ : mat => rot_Vt) (svd_input X_demo None)) = true /\
  (let d := ncols X_demo in
   let '(Ps, Pv) := learn_projectors_linear (fun _ => rot_Vt) X_demo None 1 in
   mat_eq (matmul Ps Ps) Ps /\ mat_eq (matmul Pv Pv) Pv /\
   mat_eq (matmul Ps Pv) (zeros d d) /\ mat_eq (madd Ps Pv) (eye d) /\
   Ps = msub (eye d) Pv).
Proof.
  split; [reflexivity|]. split; [vm_compute; reflexivity|].
  apply (learn_projectors_linear_invariants (fun _ => rot_Vt) X_demo None 1);
    [reflexivity | vm_compute; reflexivity].
Defined.

(** *** Energy *)

(** One row [x] of [X]: [|x (I - P)|^2 + |x P|^2 = |x|^2] for a symmetric
    idempotent [P]. *)
Lemma row_energy : forall d (x : nat -> Q) (P : nat -> nat -> Q),
  (forall i j, (i < d)%nat -> (j < d)%nat -> P i j == P j i) ->
  (forall i j, (i < d)%nat -> (j < d)%nat ->
     sumQ d (fun l => P i l * P l j) == P i j) ->
  sumQ d (fun j => sumQ d (fun l => x l * ((if Nat.eqb l j then 1 else 0) - P l j)) *
                   sumQ d (fun l => x l * ((if Nat.eqb l j then 1 else 0) - P l j))) +
  sumQ d (fun j => sumQ d (fun l => x l * P l j) * sumQ d (fun l => x l * P l j))
  == sumQ d (fun j => x j * x j).
Proof.
  intros d x P Hsym Hidem.
  set (y := fun j => sumQ d (fun l => x l * P l j)).
  assert (Hz : forall j, (j < d)%nat ->
            sumQ d (fun l => x l * ((if Nat.eqb l j then 1 else 0) - P l j))
            == x j - y j).
  { intros j Hj.
    rewrite (sumQ_ext_lt _ _ (fun l => x l * (if Nat.eqb l j then 1 else 0) -
                                       x l * P l j)) by (intros; ring).
    rewrite sumQ_minus, eye_delta_r by exact Hj. reflexivity. }
  assert (HPy : forall l, (l < d)%nat -> sumQ d (fun j => P l j * y j) == y l).
  { intros l Hl. unfold y.
    transitivity (sumQ d (fun j => sumQ d (fun m => x m * (P l j * P j m)))).
    { apply sumQ_ext_lt. intros j Hj. rewrite sumQ_scal_l.
      apply sumQ_ext_lt. intros m Hm. rewrite (Hsym m j) by assumption. ring. }
    rewrite sumQ_swap.
    apply sumQ_ext_lt. intros m Hm. rewrite <- sumQ_scal_l.
    rewrite Hidem by assumption. rewrite Hsym by assumption. reflexivity. }
  assert (Hyy : sumQ d (fun j => y j * y j) == sumQ d (fun j => x j * y j)).
  { transitivity (sumQ d (fun j => sumQ d (fun l => x l * (P l j * y j)))).
    { apply sumQ_ext_lt. intros j _. unfold y at 1.
      rewrite sumQ_scal_r. apply sumQ_ext_lt. intros. ring. }
    rewrite sumQ_swap. apply sumQ_ext_lt. intros l Hl.
    rewrite <- sumQ_scal_l. rewrite HPy by exact Hl. reflexivity. }
  rewrite (sumQ_ext_lt _ _ (fun j => (x j - y j) * (x j - y j)))
    by (intros j Hj; rewrite Hz by exact Hj; reflexivity).
  change (sumQ d (fun j => sumQ d (fun l => x l * P l j) *
                           sumQ d (fun l => x l * P l j)))
    with (sumQ d (fun j => y j * y j)).
  rewrite (sumQ_ext_lt _ _ (fun j => x j * x j - (x j * y j + x j * y j - y j * y j)))
    by (intros; ring).
  rewrite sumQ_minus, sumQ_minus, sumQ_plus, Hyy. ring.
Qed.

(** [|X Ps|^2 + |X Pv|^2 = |X|^2] for [Ps = I - Pv], [Pv] symmetric and
    idempotent on the [d x d] block, [d] the width of [X]. *)
Lemma energy_complement : forall X P,
  ncols P = ncols X ->
  (forall i j, (i < ncols X)%nat -> (j < ncols X)%nat -> get P i j == get P j i) ->
  (forall i j, (i < ncols X)%nat -> (j < ncols X)%nat ->
     sumQ (ncols X) (fun l => get P i l * get P l j) == get P i j) ->
  sumsq (matmul X (msub (eye (ncols X)) P)) + sumsq (matmul X P) == sumsq X.
Proof.
  intros X P Hc Hsym Hidem. unfold sumsq.
  cbn [matmul msub eye get nrows ncols]. rewrite Hc.
  rewrite <- sumQ_plus. apply sumQ_ext_lt. intros i _.
  apply (row_energy (ncols X) (get X i) (get P)); assumption.
Qed.

Lemma pv_of_sym : forall r V i j, get (pv_of r V) i j == get (pv_of r V) j i.
Proof.
  intros. rewrite !pv_of_get. apply gram_sym.
Qed.

(** C2 (as amended).  For the pair learned on [X] (SVD factor with
    orthonormal rows of width [d]), [energy_split X Ps Pv] is
    [|X|^2 / (|X|^2 + 1e-12)] in exact arithmetic, not 1: the [1e-12]
    guard stays in the denominator (in float64 it can be rounded away for
    a large [|X|^2], giving exactly 1.0). *)
Theorem energy_split_learned : forall svd X labels r,
  ncols (svd (svd_input X labels)) = ncols X ->
  orthonormal_rowsb (svd (svd_input X labels)) = true ->
  let '(Ps, Pv) := learn_projectors_linear svd X labels r in
  energy_split X Ps Pv == sumsq X / (sumsq X + energy_eps).
Proof.
  intros svd X labels r Hd Horth.
  rewrite learn_projectors_linear_unfold.
  set (V := svd (svd_input X labels)) in *.
  unfold energy_split. cbv zeta.
  rewrite energy_complement.
  - reflexivity.
  - rewrite pv_of_ncols. exact Hd.
  - intros. apply pv_of_sym.
  - intros i j _ _. rewrite <- Hd. apply pv_of_idem_sum. exact Horth.
Qed.

Lemma energy_split_learned_witness :
  ncols ((fun _ : mat => rot_Vt) (svd_input X_demo None)) = ncols X_demo /\
  orthonormal_rowsb ((fun _ : mat => rot_Vt) (svd_input X_demo None)) = true /\
  (let '(Ps, Pv) := learn_projectors_linear (fun _ => rot_Vt) X_demo None 1 in
   energy_split X_demo Ps Pv == sumsq X_demo / (sumsq X_demo + energy_eps)).
Proof.
  split; [reflexivity|]. split; [vm_compute; reflexivity|].
  apply (energy_split_learned (fun _ => rot_Vt) X_demo None 1);
    [reflexivity | vm_compute; reflexivity].
Defined.

(** C2 fails as stated: on the all-zero [2 x 2] matrix the learned pair is
    complementary and orthogonal, yet [energy_split] is 0, not within
    [1e-2] of 1. *)
Lemma energy_split_zero_input_learned :
  let '(Ps, Pv) := learn_projectors_linear svd_std (zeros 2 2) None 1 in
  energy_split (zeros 2 2) Ps Pv == 0 /\
  Qle_bool (Qabs (energy_split (zeros 2 2) Ps Pv - 1)) (1 # 100) = false.
Proof. vm_compute. split; reflexivity. Qed.

Lemma sumsq_matmul_zeros : forall n d P, sumsq (matmul (zeros n d) P) == 0.
Proof.
  intros n d P. unfold sumsq. cbn [matmul zeros get nrows ncols].
  apply sumQ_zero. intros i _. apply sumQ_zero. intros j _.
  rewrite (sumQ_zero d (fun l => 0 * get P l j)) by (intros; ring).
  ring.
Qed.

(** C3 (as amended).  [energy_split] has no failure path: it returns the
    ratio whatever its value; on an all-zero [n x d] array [X] it returns 0
    for any [d x d] arrays [Ps], [Pv] (the shapes [X @ Ps] and [X @ Pv]
    accept). *)
Theorem energy_split_zeros : forall n d Ps Pv,
  nrows Ps = d -> ncols Ps = d -> nrows Pv = d -> ncols Pv = d ->
  energy_split (zeros n d) Ps Pv == 0.
Proof.
  intros n d Ps Pv _ _ _ _. unfold energy_split. cbv zeta.
  rewrite !sumsq_matmul_zeros. reflexivity.
Qed.

Lemma energy_split_zeros_witness :
  nrows (eye 2) = 2%nat /\ ncols (eye 2) = 2%nat /\
  nrows (zeros 2 2) = 2%nat /\ ncols (zeros 2 2) = 2%nat /\
  energy_split (zeros 3 2) (eye 2) (zeros 2 2) == 0.
Proof.
  do 4 (split; [reflexivity|]).
  apply energy_split_zeros; reflexivity.
Defined.

(** C3 fails as stated: for [X = 0], [Ps = I], [Pv = 0] the ratio is 0,
    outside the tolerance, and it is returned as a number. *)
Lemma energy_split_unchecked_deviation :
  energy_split (zeros 2 2) (eye 2) (zeros 2 2) == 0 /\
  Qle_bool (Qabs (energy_split (zeros 2 2) (eye 2) (zeros 2 2) - 1)) (1 # 100)
  = false.
Proof. vm_compute. split; reflexivity. Qed.

(** *** Input validation *)

(** C8 (as amended).  [learn_projectors_linear] has no InvalidInput check:
    on an [X] with no rows (unsupervised mode), given the thin SVD shape
    [min(0, d) = 0] rows, it returns [Ps = I] and [Pv = 0]. *)
Theorem learn_projectors_linear_no_rows : forall svd X r,
  nrows X = 0%nat ->
  nrows (svd (svd_input X None)) =
    Nat.min (nrows (svd_input X None)) (ncols (svd_input X None)) ->
  ncols (svd (svd_input X None)) = ncols X ->
  let d := ncols X in
  let '(Ps, Pv) := learn_projectors_linear svd X None r in
  mat_eq Ps (eye d) /\ mat_eq Pv (zeros d d).
Proof.
  intros svd X r H0 Hrows Hd. cbv zeta.
  rewrite learn_projectors_linear_unfold.
  set (V := svd (svd_input X None)) in *.
  assert (HV : nrows V = 0%nat) by (rewrite Hrows; simpl; rewrite H0; reflexivity).
  assert (Hg : forall i j, get (pv_of r V) i j == 0).
  { intros i j. rewrite pv_of_get. unfold gram. rewrite HV, Nat.min_0_r.
    reflexivity. }
  split; repeat split; cbn [msub eye zeros get nrows ncols];
    try (rewrite ?pv_of_nrows, ?pv_of_ncols; exact Hd).
  - intros i j _ _. rewrite Hg. ring.
  - intros i j _ _. apply Hg.
Qed.

Lemma learn_projectors_linear_no_rows_witness :
  nrows (zeros 0 2) = 0%nat /\
  nrows (svd_std (svd_input (zeros 0 2) None)) =
    Nat.min (nrows (svd_input (zeros 0 2) None))
            (ncols (svd_input (zeros 0 2) None)) /\
  ncols (svd_std (svd_input (zeros 0 2) None)) = ncols (zeros 0 2) /\
  (let d := ncols (zeros 0 2) in
   let '(Ps, Pv) := learn_projectors_linear svd_std (zeros 0 2) None 1 in
   mat_eq Ps (eye d) /\ mat_eq Pv (zeros d d)).
Proof.
  split; [reflexivity|]. split; [reflexivity|]. split; [reflexivity|].
  apply (learn_projectors_linear_no_rows svd_std (zeros 0 2) 1);
    reflexivity.
Defined.

(** C8 fails as stated: the empty [0 x 2] matrix is not rejected; a
    projector pair [(I, 0)] comes back. *)
Lemma learn_empty_matrix_accepted :
  let '(Ps, Pv) := learn_projectors_linear svd_std (zeros 0 2) None 1 in
  mat_eqb Ps (eye 2) && mat_eqb Pv (zeros 2 2) = true.
Proof. vm_compute. reflexivity. Qed.

(** *** Quadrant split *)

Lemma fraction_bounds : forall c n,
  (0 < n)%nat -> (c <= n)%nat ->
  0 <= Q_of_nat c / Q_of_nat n /\ Q_of_nat c / Q_of_nat n <= 1.
Proof.
  intros c n Hn Hc. unfold Q_of_nat.
  assert (Hpos : 0 < inject_Z (Z.of_nat n)).
  { change 0 with (inject_Z 0). rewrite <- Zlt_Qlt. lia. }
  split.
  - apply Qle_shift_div_l; [exact Hpos|].
    rewrite Qmult_0_l. change 0 with (inject_Z 0). rewrite <- Zle_Qle. lia.
  - apply Qle_shift_div_r; [exact Hpos|].
    rewrite Qmult_1_l. rewrite <- Zle_Qle. lia.
Qed.

Lemma count_rows_le : forall p n, (count_rows p n <= n)%nat.
Proof.
  intros p n. unfold count_rows.
  rewrite <- (length_seq n 0) at 2. apply filter_length_le.
Qed.

(** C6.  For [X] with [n >= 1] rows and width [d] and [d x d] arrays
    [Ps], [Pv]: [S = X @ Ps.T], [V = X @ Pv.T], [Q_keep = S],
    [Q_discard = V - mean(V)] with that mean reported as [mu_V] (through
    [.squeeze().tolist()]: a float when [d = 1]); [Q_keep]
    and [Q_discard] are [n x d]; [rate] is the fraction of rows of
    [Q_discard] whose norm exceeds [1e-8], and lies in [[0, 1]]. *)
Theorem four_quadrants_spec : forall X Ps Pv,
  (1 <= nrows X)%nat ->
  nrows Ps = ncols X -> ncols Ps = ncols X ->
  nrows Pv = ncols X -> ncols Pv = ncols X ->
  let q := four_quadrants X Ps Pv in
  S_ q = matmul X (transpose Ps) /\ V_ q = matmul X (transpose Pv) /\
  Q_keep q = S_ q /\
  (forall i j, get (Q_discard q) i j == get (V_ q) i j - col_mean (V_ q) j) /\
  mu_V q = squeeze_tolist (map (col_mean (V_ q)) (seq 0 (ncols X))) /\
  nrows (Q_keep q) = nrows X /\ ncols (Q_keep q) = ncols X /\
  nrows (Q_discard q) = nrows X /\ ncols (Q_discard q) = ncols X /\
  rate q == Q_of_nat (count_rows (norm_exceeds (1 # 100000000) (Q_discard q))
                                 (nrows X)) / Q_of_nat (nrows X) /\
  0 <= rate q /\ rate q <= 1.
Proof.
  intros X Ps Pv Hn HPs1 HPs2 HPv1 HPv2. cbv zeta.
  cbn [four_quadrants S_ V_ Q_keep Q_discard mu_V rate matmul transpose
       get nrows ncols].
  rewrite HPs1, HPv1.
  split; [reflexivity|]. split; [reflexivity|]. split; [reflexivity|].
  split; [intros; reflexivity|]. split; [reflexivity|].
  do 4 (split; [reflexivity|]). split; [reflexivity|].
  apply fraction_bounds; [lia | apply count_rows_le].
Qed.

Lemma four_quadrants_spec_witness :
  let '(Ps, Pv) := learn_projectors_linear (fun _ => rot_Vt) X_demo None 1 in
  (1 <= nrows X_demo)%nat /\
  nrows Ps = ncols X_demo /\ ncols Ps = ncols X_demo /\
  nrows Pv = ncols X_demo /\ ncols Pv = ncols X_demo /\
  (let q := four_quadrants X_demo Ps Pv in
   S_ q = matmul X_demo (transpose Ps) /\ V_ q = matmul X_demo (transpose Pv) /\
   Q_keep q = S_ q /\
   (forall i j, get (Q_discard q) i j == get (V_ q) i j - col_mean (V_ q) j) /\
   mu_V q = squeeze_tolist (map (col_mean (V_ q)) (seq 0 (ncols X_demo))) /\
   nrows (Q_keep q) = nrows X_demo /\ ncols (Q_keep q) = ncols X_demo /\
   nrows (Q_discard q) = nrows X_demo /\ ncols (Q_discard q) = ncols X_demo /\
   rate q == Q_of_nat (count_rows (norm_exceeds (1 # 100000000) (Q_discard q))
                                  (nrows X_demo)) / Q_of_nat (nrows X_demo) /\
   0 <= rate q /\ rate q <= 1).
Proof.
  simpl learn_projectors_linear. cbv beta iota.
  split; [unfold X_demo; simpl; lia|].
  do 4 (split; [reflexivity|]).
  apply four_quadrants_spec;
    [unfold X_demo; simpl; lia | reflexivity | reflexivity | reflexivity
    | reflexivity].
Defined.

(** *** Q_study features *)

Lemma length_flat_map_3 : forall (A B : Type) (f g h : A -> B) l,
  List.length (flat_map (fun i => [f i; g i; h i]) l) = (3 * List.length l)%nat.
Proof.
  intros A B f g h l. induction l as [|a l IH]; simpl; [reflexivity|].
  rewrite IH. lia.
Qed.

Lemma map_fst_flat_map_3 : forall (B : Type) (f g h : nat -> string)
    (x y z : nat -> B) l,
  map fst (flat_map (fun i => [(f i, x i); (g i, y i); (h i, z i)]) l) =
  flat_map (fun i => [f i; g i; h i]) l.
Proof.
  intros. induction l as [|a l IH]; simpl; [reflexivity|]. rewrite IH.
  reflexivity.
Qed.

(** C7.  For [Z] with at least one row and [0 <= tail_q <= 1]:
    [tau[j]] is the [tail_q] quantile of [|Z[:, j]|], [frac_tail[j]] the
    fraction of rows with [|Z[i, j]| > tau[j]]; the record has the four
    aggregate columns and then [comp{i}_mean/_std/_tail] exactly for
    [i < min(6, k)], the tail entry being [frac_tail[i]]; so it never has
    more than [4 + 18] columns, whatever [k]. *)
Theorem compute_qstudy_vectors_spec : forall sqrtQ Z tail_q,
  (1 <= nrows Z)%nat ->
  Qle_bool 0 tail_q && Qle_bool tail_q 1 = true ->
  exists feats,
    compute_qstudy_vectors sqrtQ Z tail_q = Some feats /\
    (forall j, tau Z tail_q j =
       np_quantile (map (fun i => Qabs (get Z i j)) (seq 0 (nrows Z))) tail_q) /\
    (forall j, frac_tail Z tail_q j =
       Q_of_nat (count_rows (fun i => negb (Qle_bool (Qabs (get Z i j))
                                                      (tau Z tail_q j)))
                            (nrows Z)) / Q_of_nat (nrows Z)) /\
    map fst feats =
      base_keys ++ flat_map (fun i => [comp_key i "_mean"; comp_key i "_std";
                                       comp_key i "_tail"]%string)
                            (seq 0 (Nat.min 6 (ncols Z))) /\
    (forall i, (i < Nat.min 6 (ncols Z))%nat ->
       In (comp_key i "_tail", frac_tail Z tail_q i) feats) /\
    (List.length feats = 4 + 3 * Nat.min 6 (ncols Z))%nat /\
    (List.length feats <= 22)%nat.
Proof.
  intros sqrtQ Z tail_q Hn Hq. unfold compute_qstudy_vectors.
  rewrite Hq. destruct (Nat.eqb (nrows Z) 0) eqn:E;
    [apply Nat.eqb_eq in E; lia|]. simpl orb. cbv zeta.
  eexists. split; [reflexivity|].
  split; [reflexivity|]. split; [reflexivity|].
  split; [|split; [|split]].
  - rewrite map_app. rewrite map_fst_flat_map_3. reflexivity.
  - intros i Hi. apply in_or_app. right. apply in_flat_map.
    exists i. split; [apply in_seq; lia|]. simpl. right. right. left.
    reflexivity.
  - rewrite length_app, length_flat_map_3, length_seq. reflexivity.
  - rewrite length_app, length_flat_map_3, length_seq. cbn [List.length].
    pose proof (Nat.le_min_l 6 (ncols Z)). lia.
Qed.

Lemma compute_qstudy_vectors_spec_witness :
  (1 <= nrows X_demo)%nat /\
  Qle_bool 0 (997 # 1000) && Qle_bool (997 # 1000) 1 = true /\
  exists feats,
    compute_qstudy_vectors (fun v => v) X_demo (997 # 1000) = Some feats /\
    (forall j, tau X_demo (997 # 1000) j =
       np_quantile (map (fun i => Qabs (get X_demo i j)) (seq 0 (nrows X_demo)))
                   (997 # 1000)) /\
    (forall j, frac_tail X_demo (997 # 1000) j =
       Q_of_nat (count_rows (fun i => negb (Qle_bool (Qabs (get X_demo i j))
                                                      (tau X_demo (997 # 1000) j)))
                            (nrows X_demo)) / Q_of_nat (nrows X_demo)) /\
    map fst feats =
      base_keys ++ flat_map (fun i => [comp_key i "_mean"; comp_key i "_std";
                                       comp_key i "_tail"]%string)
                            (seq 0 (Nat.min 6 (ncols X_demo))) /\
    (forall i, (i < Nat.min 6 (ncols X_demo))%nat ->
       In (comp_key i "_tail", frac_tail X_demo (997 # 1000) i) feats) /\
    (List.length feats = 4 + 3 * Nat.min 6 (ncols X_demo))%nat /\
    (List.length feats <= 22)%nat.
Proof.
  split; [unfold X_demo; simpl; lia|]. split; [reflexivity|].
  apply (compute_qstudy_vectors_spec (fun v => v) X_demo (997 # 1000));
    [unfold X_demo; simpl; lia | reflexivity].
Defined.

Example nat_str_examples :
  nat_str 0 = "0"%string /\ nat_str 5 = "5"%string /\ nat_str 1207 = "1207"%string.
Proof. vm_compute. repeat split. Qed.

Example quantile_example :
  np_quantile [3; 1; 4; 1; 5] (1 # 2) == 3 /\
  np_quantile [1; 2] (1 # 4) == 5 # 4.
Proof. vm_compute. split; reflexivity. Qed.

(** *** Further properties: projector pair *)

Lemma Q_of_nat_S : forall n, Q_of_nat (S n) == Q_of_nat n + 1.
Proof.
  intros n. unfold Q_of_nat. rewrite Nat2Z.inj_succ, <- Z.add_1_r, inject_Z_plus.
  reflexivity.
Qed.

Lemma sumQ_const : forall n c, sumQ n (fun _ => c) == Q_of_nat n * c.
Proof.
  induction n as [|n IH]; intros c; simpl.
  - reflexivity.
  - rewrite IH, Q_of_nat_S. ring.
Qed.

Lemma Q_of_nat_pos : forall n, (1 <= n)%nat -> 0 < Q_of_nat n.
Proof.
  intros n Hn. unfold Q_of_nat. change 0 with (inject_Z 0).
  rewrite <- Zlt_Qlt. lia.
Qed.

(** With [r = 0] nothing is learned: [Vt[:0]] is empty, so [Pv] is zero
    and [Ps] is the identity, whatever the SVD returns. *)
Theorem learn_projectors_linear_rank_zero : forall svd X labels,
  let '(Ps, Pv) := learn_projectors_linear svd X labels 0 in
  (forall i j, get Pv i j == 0) /\
  (forall i j, get Ps i j == if Nat.eqb i j then 1 else 0).
Proof.
  intros svd X labels. rewrite learn_projectors_linear_unfold.
  assert (H0 : forall i j, get (pv_of 0 (svd (svd_input X labels))) i j == 0)
    by (intros i j; rewrite pv_of_get; reflexivity).
  split; [exact H0|].
  intros i j. cbn [msub eye get]. rewrite H0. ring.
Qed.

(** The learned projectors are exactly symmetric for every SVD factor:
    the symmetrisation step makes [Pv[i, j] = Pv[j, i]], and so also
    [Ps[i, j] = Ps[j, i]]. *)
Theorem learn_projectors_linear_symmetric : forall svd X labels r,
  let '(Ps, Pv) := learn_projectors_linear svd X labels r in
  forall i j, get Pv i j == get Pv j i /\ get Ps i j == get Ps j i.
Proof.
  intros svd X labels r. rewrite learn_projectors_linear_unfold.
  intros i j. split; [apply pv_of_sym|].
  cbn [msub eye get]. rewrite Nat.eqb_sym, pv_of_sym. reflexivity.
Qed.

(** With an SVD factor of orthonormal rows, [trace(Pv)] is the number of
    kept directions [min(r, rows of Vt)] and [trace(Ps)] is [d] minus it. *)
Theorem learn_projectors_linear_trace : forall svd X labels r,
  ncols (svd (svd_input X labels)) = ncols X ->
  orthonormal_rowsb (svd (svd_input X labels)) = true ->
  let k := Nat.min r (nrows (svd (svd_input X labels))) in
  sumQ (ncols X) (fun i => get (snd (learn_projectors_linear svd X labels r)) i i)
    == Q_of_nat k /\
  sumQ (ncols X) (fun i => get (fst (learn_projectors_linear svd X labels r)) i i)
    == Q_of_nat (ncols X) - Q_of_nat k.
Proof.
  intros svd X labels r Hd Horth. cbv zeta.
  rewrite learn_projectors_linear_unfold. cbn [fst snd].
  set (V := svd (svd_input X labels)) in *.
  assert (HP : sumQ (ncols X) (fun i => get (pv_of r V) i i)
               == Q_of_nat (Nat.min r (nrows V))).
  { rewrite (sumQ_ext_lt _ _ (fun i => gram r V i i))
      by (intros; apply pv_of_get).
    unfold gram. rewrite sumQ_swap.
    rewrite (sumQ_ext_lt _ _ (fun _ => 1)).
    - rewrite sumQ_const. ring.
    - intros k Hk. rewrite <- Hd.
      rewrite (orthonormal_rowsb_spec V Horth k k) by lia.
      rewrite Nat.eqb_refl. reflexivity. }
  split; [exact HP|].
  cbn [msub eye get].
  rewrite sumQ_minus, HP.
  rewrite (sumQ_ext_lt _ _ (fun _ => 1))
    by (intros; rewrite Nat.eqb_refl; reflexivity).
  rewrite sumQ_const. ring.
Qed.

Lemma learn_projectors_linear_trace_witness :
  ncols ((fun _ : mat => rot_Vt) (svd_input X_demo None)) = ncols X_demo /\
  orthonormal_rowsb ((fun _ : mat => rot_Vt) (svd_input X_demo None)) = true /\
  (let k := Nat.min 1 (nrows ((fun _ : mat => rot_Vt) (svd_input X_demo None))) in
   sumQ (ncols X_demo) (fun i =>
     get (snd (learn_projectors_linear (fun _ => rot_Vt) X_demo None 1)) i i)
     == Q_of_nat k /\
   sumQ (ncols X_demo) (fun i =>
     get (fst (learn_projectors_linear (fun _ => rot_Vt) X_demo None 1)) i i)
     == Q_of_nat (ncols X_demo) - Q_of_nat k).
Proof.
  split; [reflexivity|]. split; [vm_compute; reflexivity|].
  apply learn_projectors_linear_trace; [reflexivity | vm_compute; reflexivity].
Defined.

Lemma np_unique_repeat : forall c n, np_unique (repeat c (S n)) = [c].
Proof.
  intros c n. induction n as [|n IH].
  - reflexivity.
  - change (np_unique (repeat c (S (S n)))) with
      (if existsb (Z.eqb c) (np_unique (repeat c (S n))) then
         np_unique (repeat c (S n))
       else insert_sorted c (np_unique (repeat c (S n)))).
    rewrite IH. simpl. rewrite Z.eqb_refl. reflexivity.
Qed.

Lemma filter_all_in : forall (A : Type) (f : A -> bool) l,
  (forall x, In x l -> f x = true) -> filter f l = l.
Proof.
  intros A f l. induction l as [|a l IH]; intros H; simpl; [reflexivity|].
  rewrite (H a (or_introl eq_refl)). f_equal. apply IH.
  intros x Hx. apply H. right. exact Hx.
Qed.

(** Supervised mode with a single label value: the class-mean difference
    matrix handed to the SVD is one row of zeros, so the learned [Vt]
    carries no information about [X]. *)
Theorem svd_input_single_class : forall X c,
  (1 <= nrows X)%nat ->
  let M := svd_input X (Some (repeat c (nrows X))) in
  nrows M = 1%nat /\ ncols M = ncols X /\
  forall j, get M 0 j == 0.
Proof.
  intros X c Hn. cbv zeta. unfold svd_input, class_diff_matrix.
  destruct (nrows X) as [|n] eqn:En; [lia|].
  rewrite np_unique_repeat. cbn [nrows ncols get List.length nth].
  split; [reflexivity|]. split; [reflexivity|].
  intros j. unfold class_mean. rewrite En.
  assert (Hsel : forall i, (i < S n)%nat ->
            Z.eqb (nth i (repeat c (S n)) 0%Z) c = true).
  { intros i Hi. apply Z.eqb_eq. apply (repeat_spec (S n)).
    apply nth_In. rewrite repeat_length. exact Hi. }
  rewrite filter_all_in
    by (intros i Hi; apply in_seq in Hi; apply Hsel; lia).
  rewrite length_seq.
  rewrite (sumQ_ext_lt _ _ (fun i => get X i j))
    by (intros i Hi; rewrite Hsel by exact Hi; reflexivity).
  unfold col_mean. rewrite En. ring.
Qed.

Lemma svd_input_single_class_witness :
  (1 <= nrows X_demo)%nat /\
  (let M := svd_input X_demo (Some (repeat 7%Z (nrows X_demo))) in
   nrows M = 1%nat /\ ncols M = ncols X_demo /\ forall j, get M 0 j == 0).
Proof.
  split; [unfold X_demo; simpl; lia|].
  apply svd_input_single_class. unfold X_demo; simpl; lia.
Defined.

(** *** Further properties: quadrant split *)

(** [Q_discard] is column-centred: each of its columns sums to zero. *)
Theorem four_quadrants_discard_centered : forall X Ps Pv j,
  (1 <= nrows X)%nat ->
  sumQ (nrows X) (fun i => get (Q_discard (four_quadrants X Ps Pv)) i j) == 0.
Proof.
  intros X Ps Pv j Hn. cbn [four_quadrants Q_discard get].
  rewrite sumQ_minus, sumQ_const. unfold col_mean. cbn [matmul nrows get].
  pose proof (Q_of_nat_pos _ Hn) as Hp.
  field. intros E. rewrite E in Hp. discriminate Hp.
Qed.

Lemma four_quadrants_discard_centered_witness :
  (1 <= nrows X_demo)%nat /\
  sumQ (nrows X_demo) (fun i =>
    get (Q_discard (four_quadrants X_demo (eye 2) (eye 2))) i 1) == 0.
Proof.
  split; [unfold X_demo; simpl; lia|].
  apply four_quadrants_discard_centered. unfold X_demo; simpl; lia.
Defined.

(** On the learned pair the split loses nothing, for any SVD factor:
    [Q_keep + V = X] entry by entry, because [Ps = I - Pv]. *)
Theorem four_quadrants_learned_lossless : forall svd X labels r i j,
  (j < ncols X)%nat ->
  let q := four_quadrants X (fst (learn_projectors_linear svd X labels r))
                            (snd (learn_projectors_linear svd X labels r)) in
  get (Q_keep q) i j + get (V_ q) i j == get X i j.
Proof.
  intros svd X labels r i j Hj. cbv zeta.
  rewrite learn_projectors_linear_unfold. cbn [fst snd].
  cbn [four_quadrants Q_keep V_ matmul transpose msub eye get].
  rewrite <- sumQ_plus.
  rewrite (sumQ_ext_lt _ _ (fun l => get X i l * (if Nat.eqb l j then 1 else 0)))
    by (intros l _; rewrite (Nat.eqb_sym j l); ring).
  apply eye_delta_r. exact Hj.
Qed.

Lemma four_quadrants_learned_lossless_witness :
  (1 < ncols X_demo)%nat /\
  (let q := four_quadrants X_demo
              (fst (learn_projectors_linear svd_std X_demo None 1))
              (snd (learn_projectors_linear svd_std X_demo None 1)) in
   get (Q_keep q) 2 1 + get (V_ q) 2 1 == get X_demo 2 1).
Proof.
  split; [unfold X_demo; simpl; lia|].
  apply four_quadrants_learned_lossless. unfold X_demo; simpl; lia.
Defined.

(** With [r = 0] the quadrant split of an [X] with at least one row keeps
    all of [X] and discards nothing: [Q_keep = X], [Q_discard = 0] and the
    rate is [0]. *)
Theorem four_quadrants_rank_zero : forall svd X labels i j,
  (1 <= nrows X)%nat -> (j < ncols X)%nat ->
  let q := four_quadrants X (fst (learn_projectors_linear svd X labels 0))
                            (snd (learn_projectors_linear svd X labels 0)) in
  get (Q_keep q) i j == get X i j /\ get (Q_discard q) i j == 0 /\ rate q == 0.
Proof.
  intros svd X labels i j _ Hj. cbv zeta.
  pose proof (learn_projectors_linear_rank_zero svd X labels) as HZ.
  destruct (learn_projectors_linear svd X labels 0) as [Ps Pv]. cbn [fst snd].
  destruct HZ as [HPv HPs].
  assert (HV : forall a b, get (matmul X (transpose Pv)) a b == 0).
  { intros a b. cbn [matmul transpose get]. apply sumQ_zero.
    intros l _. rewrite HPv. ring. }
  assert (HD : forall a b, get (Q_discard (four_quadrants X Ps Pv)) a b == 0).
  { intros a b. cbn [four_quadrants Q_discard get]. rewrite HV.
    unfold col_mean. rewrite (sumQ_zero _ (fun a0 => get _ a0 b))
      by (intros; apply HV).
    cbn [matmul nrows]. destruct (Q_of_nat (nrows X)) as [[|p|p] den];
      reflexivity. }
  split; [|split; [apply HD|]].
  - cbn [four_quadrants Q_keep matmul transpose get].
    rewrite (sumQ_ext_lt _ _ (fun l => get X i l * (if Nat.eqb l j then 1 else 0)))
      by (intros l _; rewrite HPs, (Nat.eqb_sym j l); reflexivity).
    apply eye_delta_r. exact Hj.
  - set (A := Q_discard (four_quadrants X Ps Pv)) in HD.
    change (rate (four_quadrants X Ps Pv)) with
      (Q_of_nat (count_rows (norm_exceeds (1 # 100000000) A) (nrows A))
       / Q_of_nat (nrows A)).
    unfold count_rows.
    rewrite (filter_ext_in _ (fun _ => false)).
    + rewrite filter_false. reflexivity.
    + intros a _. unfold norm_exceeds. apply negb_false_iff.
      apply Qle_bool_iff. apply Qle_trans with 0.
      * apply Qle_lteq. right. apply sumQ_zero.
        intros b _. rewrite HD. ring.
      * vm_compute. discriminate.
Qed.

Lemma four_quadrants_rank_zero_witness :
  (1 <= nrows X_demo)%nat /\ (1 < ncols X_demo)%nat /\
  (let q := four_quadrants X_demo
              (fst (learn_projectors_linear svd_std X_demo None 0))
              (snd (learn_projectors_linear svd_std X_demo None 0)) in
   get (Q_keep q) 2 1 == get X_demo 2 1 /\ get (Q_discard q) 2 1 == 0 /\
   rate q == 0).
Proof.
  split; [unfold X_demo; simpl; lia|]. split; [unfold X_demo; simpl; lia|].
  apply four_quadrants_rank_zero; unfold X_demo; simpl; lia.
Defined.

(** *** Further properties: [center_l2] and [project] *)

Lemma sumQ_div_sq : forall n (c : nat -> Q) M, ~ M == 0 ->
  sumQ n (fun j => (c j / M) * (c j / M)) == sumQ n (fun j => c j * c j) / (M * M).
Proof.
  intros n c M HM. unfold Qdiv at 3. rewrite sumQ_scal_r.
  apply sumQ_ext_lt. intros l _. field. exact HM.
Qed.

Lemma norm_floor_pos : 0 < norm_floor.
Proof. reflexivity. Qed.

Lemma Qmax_floor_pos : forall x, 0 < Qmax x norm_floor.
Proof.
  intros x. apply Qlt_le_trans with norm_floor; [exact norm_floor_pos|].
  apply Q.le_max_r.
Qed.

Lemma Qmax_floor_nz : forall x, ~ Qmax x norm_floor == 0.
Proof.
  intros x E. pose proof (Qmax_floor_pos x) as H. rewrite E in H.
  discriminate H.
Qed.

(** [center_l2] L2-normalises each centred row: wherever [np.sqrt] is
    exact on the row's squared norm [s], the row of [Vn] has squared norm
    at most [1], and exactly [1] unless the norm is below the floor
    [1e-9]. *)
Theorem center_l2_row_norm : forall sqrtQ V mu0 i,
  let mu := snd (center_l2 sqrtQ V mu0) in
  let Vn := fst (center_l2 sqrtQ V mu0) in
  let s := sumQ (ncols V) (fun j => (get V i j - mu j) * (get V i j - mu j)) in
  0 <= sqrtQ s -> sqrtQ s * sqrtQ s == s ->
  sumQ (ncols V) (fun j => get Vn i j * get Vn i j) <= 1 /\
  (norm_floor <= sqrtQ s -> sumQ (ncols V) (fun j => get Vn i j * get Vn i j) == 1).
Proof.
  intros sqrtQ V mu0 i. cbv zeta.
  set (m := snd (center_l2 sqrtQ V mu0)).
  set (s := sumQ (ncols V) (fun j => (get V i j - m j) * (get V i j - m j))).
  intros Hpos Hsq.
  assert (HVn : forall j, get (fst (center_l2 sqrtQ V mu0)) i j ==
                          (get V i j - m j) / Qmax (sqrtQ s) norm_floor)
    by (intros j; reflexivity).
  rewrite (sumQ_ext_lt _ _ (fun j => ((get V i j - m j) / Qmax (sqrtQ s) norm_floor) *
                                     ((get V i j - m j) / Qmax (sqrtQ s) norm_floor)))
    by (intros j _; rewrite HVn; reflexivity).
  rewrite sumQ_div_sq by apply Qmax_floor_nz. fold s.
  set (M := Qmax (sqrtQ s) norm_floor).
  assert (HM : 0 < M) by apply Qmax_floor_pos.
  assert (Hle : sqrtQ s <= M) by apply Q.le_max_l.
  assert (HMf : M == sqrtQ s \/ ~ norm_floor <= sqrtQ s).
  { destruct (Qlt_le_dec (sqrtQ s) norm_floor) as [Hl|Hl].
    - right. apply Qlt_not_le. exact Hl.
    - left. apply Q.max_l. exact Hl. }
  clearbody M.
  split.
  - apply Qle_shift_div_r; [apply Qmult_lt_0_compat; exact HM|].
    apply Qle_trans with (sqrtQ s * sqrtQ s);
      [apply Qle_lteq; right; symmetry; exact Hsq|].
    rewrite Qmult_1_l.
    apply Qmult_le_compat_nonneg; split; assumption.
  - intros Hf. destruct HMf as [HMs|Hn]; [|contradiction].
    assert (Hs : 0 < s).
    { apply Qlt_le_trans with (sqrtQ s * sqrtQ s);
        [|apply Qle_lteq; right; exact Hsq].
      apply Qmult_lt_0_compat; apply Qlt_le_trans with norm_floor;
        try exact norm_floor_pos; exact Hf. }
    rewrite HMs, Hsq. field.
    intros E. rewrite E in Hs. discriminate Hs.
Qed.

Lemma center_l2_row_norm_witness :
  let V := Mat 2 2 (fun i j => Q_of_nat (i * (6 + 2 * j))) in
  let sq := fun _ : Q => 5 in
  let mu := snd (center_l2 sq V None) in
  let Vn := fst (center_l2 sq V None) in
  let s := sumQ (ncols V) (fun j => (get V 1 j - mu j) * (get V 1 j - mu j)) in
  0 <= sq s /\ sq s * sq s == s /\
  sumQ (ncols V) (fun j => get Vn 1 j * get Vn 1 j) <= 1 /\
  (norm_floor <= sq s -> sumQ (ncols V) (fun j => get Vn 1 j * get Vn 1 j) == 1).
Proof.
  cbv zeta.
  split; [vm_compute; discriminate|]. split; [vm_compute; reflexivity|].
  apply (center_l2_row_norm (fun _ : Q => 5)
           (Mat 2 2 (fun i j => Q_of_nat (i * (6 + 2 * j)))) None 1);
    vm_compute; [discriminate | reflexivity].
Defined.

(** [project] sends [mu + components[k]] to the [k]-th unit vector when
    the components have orthonormal rows; the output has one row per input
    row and one column per component. *)
Theorem project_component_row : forall V mu C i k,
  orthonormal_rowsb C = true -> ncols C = ncols V -> (k < nrows C)%nat ->
  (forall j, (j < ncols V)%nat -> get V i j == mu j + get C k j) ->
  nrows (project V mu C) = nrows V /\ ncols (project V mu C) = nrows C /\
  forall m, (m < nrows C)%nat ->
    get (project V mu C) i m == if Nat.eqb k m then 1 else 0.
Proof.
  intros V mu C i k Horth Hd Hk Hrow.
  split; [reflexivity|]. split; [reflexivity|].
  intros m Hm. cbn [project matmul transpose get nrows ncols].
  rewrite (sumQ_ext_lt _ _ (fun l => get C k l * get C m l))
    by (intros l Hl; rewrite Hrow by exact Hl; ring).
  rewrite <- Hd. apply orthonormal_rowsb_spec; assumption.
Qed.

Lemma project_component_row_witness :
  let V := Mat 1 2 (fun _ j => 1 + get rot_Vt 1 j) in
  orthonormal_rowsb rot_Vt = true /\ ncols rot_Vt = ncols V /\
  (1 < nrows rot_Vt)%nat /\
  (forall j, (j < ncols V)%nat -> get V 0 j == (fun _ => 1) j + get rot_Vt 1 j) /\
  (nrows (project V (fun _ => 1) rot_Vt) = nrows V /\
   ncols (project V (fun _ => 1) rot_Vt) = nrows rot_Vt /\
   forall m, (m < nrows rot_Vt)%nat ->
     get (project V (fun _ => 1) rot_Vt) 0 m == if Nat.eqb 1 m then 1 else 0).
Proof.
  cbv zeta.
  assert (Hrow : forall j, (j < 2)%nat ->
            get (Mat 1 2 (fun _ j => 1 + get rot_Vt 1 j)) 0 j ==
            (fun _ => 1) j + get rot_Vt 1 j) by (intros; reflexivity).
  split; [vm_compute; reflexivity|]. split; [reflexivity|].
  split; [simpl; lia|]. split; [exact Hrow|].
  apply project_component_row;
    [vm_compute; reflexivity | reflexivity | simpl; lia | exact Hrow].
Defined.

(** The caller's pipeline ([center_l2], then [fit_svd] on [Vn], then
    [project] of the raw rows with [model.mu = mu]): the projection of row
    [i] is the projection of the normalised row [Vn[i]] scaled back by
    [max(norm_i, 1e-9)], for every [np.sqrt] and every set of components. *)
Theorem project_after_center_l2 : forall sqrtQ X mu0 C i m,
  let Vn := fst (center_l2 sqrtQ X mu0) in
  let mu := snd (center_l2 sqrtQ X mu0) in
  get (project X mu C) i m ==
  Qmax (sqrtQ (sumQ (ncols X) (fun j => (get X i j - mu j) * (get X i j - mu j))))
       norm_floor
  * get (matmul Vn (transpose C)) i m.
Proof.
  intros sqrtQ X mu0 C i m. cbv zeta.
  set (mu := snd (center_l2 sqrtQ X mu0)).
  set (M := Qmax (sqrtQ (sumQ (ncols X) (fun j => (get X i j - mu j) *
                                                  (get X i j - mu j))))
                 norm_floor).
  assert (HM : ~ M == 0) by apply Qmax_floor_nz.
  cbn [project matmul transpose get nrows ncols].
  change (ncols (fst (center_l2 sqrtQ X mu0))) with (ncols X).
  rewrite sumQ_scal_l. apply sumQ_ext_lt. intros l _.
  change (get (fst (center_l2 sqrtQ X mu0)) i l) with ((get X i l - mu l) / M).
  field. exact HM.
Qed.

(** *** Further properties: [fit_svd] *)

(** With [method="auto"] the estimator follows the data size: randomized
    [TruncatedSVD] when [n > 10000] or [d > 1000], [IncrementalPCA] when
    [2000 < n <= 10000] and [d <= 1000] (its batch size then lies in
    [[500, 1000]]), plain [TruncatedSVD] otherwise; [k] is always passed on,
    and the seed is passed to both [TruncatedSVD] variants. *)
Theorem svd_estimator_auto : forall n d k seed,
  match svd_estimator "auto" n d k seed with
  | TruncatedSVD_randomized k' s =>
      ((10000 < n)%nat \/ (1000 < d)%nat) /\ k' = k /\ s = seed
  | IncrementalPCA k' b =>
      (2000 < n <= 10000)%nat /\ (d <= 1000)%nat /\ k' = k /\
      (500 <= b <= 1000)%nat
  | TruncatedSVD_default k' s =>
      (n <= 2000)%nat /\ (d <= 1000)%nat /\ k' = k /\ s = seed
  end.
Proof.
  intros n d k seed. unfold svd_estimator. cbn [String.eqb Ascii.eqb Bool.eqb].
  destruct (Nat.ltb_spec 10000 n) as [H1|H1];
    destruct (Nat.ltb_spec 1000 d) as [H2|H2]; cbn [orb];
    cbn [String.eqb Ascii.eqb Bool.eqb];
    try (split; [lia | split; reflexivity]).
  destruct (Nat.ltb_spec 2000 n) as [H3|H3]; cbn [String.eqb Ascii.eqb Bool.eqb].
  - split; [lia|]. split; [lia|]. split; [reflexivity|].
    split; [|apply Nat.le_min_l].
    apply Nat.min_glb; [lia|]. apply Nat.div_le_lower_bound; lia.
  - split; [lia|]. split; [lia|]. split; reflexivity.
Qed.

(** Any [method] other than ["auto"], ["randomized"] and ["incremental"]
    (a misspelling included) silently selects the default [TruncatedSVD]. *)
Theorem svd_estimator_other_method : forall method n d k seed,
  method <> "auto"%string -> method <> "randomized"%string ->
  method <> "incremental"%string ->
  svd_estimator method n d k seed = TruncatedSVD_default k seed.
Proof.
  intros method n d k seed Ha Hr Hi. unfold svd_estimator.
  apply String.eqb_neq in Ha, Hr, Hi. rewrite Ha, Hr, Hi. reflexivity.
Qed.

Lemma svd_estimator_other_method_witness :
  "Randomized"%string <> "auto"%string /\
  "Randomized"%string <> "randomized"%string /\
  "Randomized"%string <> "incremental"%string /\
  svd_estimator "Randomized" 20000 10 5 42 = TruncatedSVD_default 5 42.
Proof.
  split; [discriminate|]. split; [discriminate|]. split; [discriminate|].
  apply svd_estimator_other_method; discriminate.
Defined.

(** On the incremental path the seed is never used: [fit_svd] returns the
    same model for any two seeds. *)
Theorem fit_svd_incremental_seed_unused : forall fe Vn k s1 s2 method,
  method = "incremental"%string \/
  (method = "auto"%string /\ (2000 < nrows Vn <= 10000)%nat /\
   (ncols Vn <= 1000)%nat) ->
  fit_svd fe Vn k s1 method = fit_svd fe Vn k s2 method.
Proof.
  intros fe Vn k s1 s2 method H. unfold fit_svd, svd_estimator.
  destruct H as [->|[-> [Hn Hd]]]; cbn [String.eqb Ascii.eqb Bool.eqb].
  - reflexivity.
  - destruct (Nat.ltb_spec 10000 (nrows Vn)); [lia|].
    destruct (Nat.ltb_spec 1000 (ncols Vn)); [lia|].
    destruct (Nat.ltb_spec 2000 (nrows Vn)); [|lia].
    reflexivity.
Qed.

Lemma fit_svd_incremental_seed_unused_witness :
  let fe := fun (e : estimator) (_ : mat) =>
              match e with
              | TruncatedSVD_randomized _ s | TruncatedSVD_default _ s =>
                  (Persist.mk_ndarray [1%nat] [inject_Z s], Persist.mk_ndarray [] [])
              | IncrementalPCA _ b =>
                  (Persist.mk_ndarray [1%nat] [Q_of_nat b], Persist.mk_ndarray [] [])
              end in
  ("incremental"%string = "incremental"%string \/
   ("incremental"%string = "auto"%string /\ (2000 < nrows (zeros 3 2) <= 10000)%nat /\
    (ncols (zeros 3 2) <= 1000)%nat)) /\
  fit_svd fe (zeros 3 2) 1 7 "incremental" = fit_svd fe (zeros 3 2) 1 42 "incremental".
Proof.
  cbv zeta. split; [left; reflexivity|].
  apply fit_svd_incremental_seed_unused. left. reflexivity.
Defined.

(** *** Further properties: quantiles and tail fractions *)

Lemma In_insert_Q : forall x l y, In y (insert_Q x l) <-> x = y \/ In y l.
Proof.
  intros x l y. induction l as [|a l IH]; simpl.
  - split; intros [H|H]; auto; contradiction.
  - destruct (Qle_bool x a); simpl; [tauto|]. rewrite IH. tauto.
Qed.

Lemma In_sort_Q : forall l y, In y (sort_Q l) <-> In y l.
Proof.
  induction l as [|a l IH]; intros y; simpl; [tauto|].
  unfold sort_Q in *. simpl. rewrite In_insert_Q, IH. tauto.
Qed.

Lemma last_cons_ne : forall (y : Q) t d, t <> [] -> last (y :: t) d = last t d.
Proof. intros y t d H. destruct t; [contradiction|reflexivity]. Qed.

Lemma insert_Q_ne : forall x l, insert_Q x l <> [].
Proof. intros x [|a l]; simpl; [discriminate|]. destruct (Qle_bool x a); discriminate. Qed.

(** Inserting [x] changes the last element only when no element is at
    least [x]. *)
Lemma last_insert_Q : forall x l d,
  last (insert_Q x l) d =
  if existsb (fun y => Qle_bool x y) l then last l d else x.
Proof.
  intros x l d. induction l as [|a t IH]; [reflexivity|].
  cbn [insert_Q existsb].
  destruct (Qle_bool x a) eqn:Ea; cbn [orb]; [reflexivity|].
  rewrite last_cons_ne by apply insert_Q_ne. rewrite IH.
  destruct (existsb _ t) eqn:Et; [|reflexivity].
  destruct t; [discriminate|reflexivity].
Qed.

Lemma existsb_false_forall : forall (A : Type) (f : A -> bool) l y,
  existsb f l = false -> In y l -> f y = false.
Proof.
  intros A f l y H Hy. destruct (f y) eqn:E; [|reflexivity].
  assert (existsb f l = true) by (apply existsb_exists; exists y; auto).
  congruence.
Qed.

(** The last element of [sort_Q l] bounds every element of [l]. *)
Lemma sort_Q_last_max : forall l y, In y l -> y <= last (sort_Q l) 0.
Proof.
  induction l as [|a t IH]; intros y Hy; [contradiction|].
  change (sort_Q (a :: t)) with (insert_Q a (sort_Q t)).
  rewrite last_insert_Q.
  destruct (existsb (fun z => Qle_bool a z) (sort_Q t)) eqn:E.
  - apply existsb_exists in E. destruct E as [z [Hz Haz]].
    rewrite In_sort_Q in Hz. apply Qle_bool_iff in Haz.
    destruct Hy as [<-|Hy].
    + apply Qle_trans with z; [exact Haz | apply IH; exact Hz].
    + apply IH. exact Hy.
  - destruct Hy as [<-|Hy]; [apply Qle_refl|].
    assert (Hf : Qle_bool a y = false).
    { apply (existsb_false_forall _ _ (sort_Q t)); [exact E|].
      rewrite In_sort_Q. exact Hy. }
    apply Qlt_le_weak. apply Qnot_le_lt. intros Hle.
    apply Qle_bool_iff in Hle. congruence.
Qed.

Lemma nth_pred_length_last : forall (l : list Q) d,
  nth (List.length l - 1) l d = last l d.
Proof.
  induction l as [|a t IH]; intros d; [reflexivity|].
  destruct t as [|b t]; [reflexivity|].
  rewrite last_cons_ne by discriminate. rewrite <- IH.
  cbn [List.length]. replace (S (S (List.length t)) - 1)%nat with
    (S (S (List.length t) - 1))%nat by lia.
  reflexivity.
Qed.

(** [np.quantile(v, 1)] is the largest value. *)
Lemma np_quantile_one : forall l, np_quantile l 1 == last (sort_Q l) 0.
Proof.
  intros l. unfold np_quantile. cbv zeta.
  set (v := sort_Q l).
  assert (Hf : Qfloor (1 * Q_of_nat (List.length v - 1)) =
               Z.of_nat (List.length v - 1)).
  { rewrite Qmult_1_l. apply Qfloor_Z. }
  rewrite Hf, Nat2Z.id, <- nth_pred_length_last.
  unfold Q_of_nat. ring.
Qed.

Lemma last_In_ne : forall (l : list Q) d, l <> [] -> In (last l d) l.
Proof.
  induction l as [|a t IH]; intros d H; [contradiction|].
  destruct t as [|b t]; [left; reflexivity|].
  rewrite last_cons_ne by discriminate. right. apply IH. discriminate.
Qed.

(** With [tail_q = 1], [tau[j]] is the maximum of [|Z[:, j]|] for [Z] with
    at least one row: it is one of the entries and no entry exceeds it, so
    [frac_tail[j]] is [0] for every column. *)
Theorem frac_tail_top_quantile : forall Z j,
  (1 <= nrows Z)%nat ->
  (exists i, (i < nrows Z)%nat /\ tau Z 1 j == Qabs (get Z i j)) /\
  (forall i, (i < nrows Z)%nat -> Qabs (get Z i j) <= tau Z 1 j) /\
  frac_tail Z 1 j == 0.
Proof.
  intros Z j Hn.
  assert (Ha : exists i, (i < nrows Z)%nat /\ tau Z 1 j == Qabs (get Z i j)).
  { set (c := col_list (mabs Z) j).
    assert (Hc : c <> []).
    { unfold c, col_list. cbn [mabs nrows].
      destruct (nrows Z) eqn:E; [lia | discriminate]. }
    assert (Hs : sort_Q c <> []).
    { destruct c as [|a t]; [contradiction|]. apply insert_Q_ne. }
    pose proof (last_In_ne _ 0 Hs) as Hl. rewrite In_sort_Q in Hl.
    unfold c, col_list in Hl. apply in_map_iff in Hl.
    destruct Hl as [i [Hi Hin]]. apply in_seq in Hin.
    exists i. cbn [mabs nrows] in Hin. split; [lia|].
    unfold tau. rewrite np_quantile_one. unfold col_list.
    rewrite <- Hi. reflexivity. }
  assert (Hb : forall i, (i < nrows Z)%nat -> Qabs (get Z i j) <= tau Z 1 j).
  { intros i Hi. unfold tau. rewrite np_quantile_one.
    apply sort_Q_last_max. unfold col_list. cbn [mabs get nrows].
    apply in_map_iff. exists i. split; [reflexivity|]. apply in_seq. lia. }
  split; [exact Ha|]. split; [exact Hb|].
  unfold frac_tail, count_rows.
  rewrite (filter_ext_in _ (fun _ => false)).
  - rewrite filter_false. reflexivity.
  - intros i Hi. apply in_seq in Hi. apply negb_false_iff.
    apply Qle_bool_iff. apply Hb. lia.
Qed.

Lemma frac_tail_top_quantile_witness :
  (1 <= nrows X_demo)%nat /\
  ((exists i, (i < nrows X_demo)%nat /\ tau X_demo 1 1 == Qabs (get X_demo i 1)) /\
   (forall i, (i < nrows X_demo)%nat -> Qabs (get X_demo i 1) <= tau X_demo 1 1) /\
   frac_tail X_demo 1 1 == 0).
Proof.
  split; [unfold X_demo; simpl; lia|].
  apply frac_tail_top_quantile. unfold X_demo; simpl; lia.
Defined.

Lemma sumQ_le_ext : forall n f g,
  (forall l, (l < n)%nat -> f l <= g l) -> sumQ n f <= sumQ n g.
Proof.
  induction n as [|n IH]; intros f g H; simpl; [apply Qle_refl|].
  apply Qplus_le_compat; [apply IH; intros; apply H; lia | apply H; lia].
Qed.

(** A mean of values in [[0, 1]] lies in [[0, 1]]. *)
Lemma mean_over_unit : forall k f,
  (1 <= k)%nat -> (forall l, (l < k)%nat -> 0 <= f l /\ f l <= 1) ->
  0 <= mean_over k f /\ mean_over k f <= 1.
Proof.
  intros k f Hk Hf. unfold mean_over.
  pose proof (Q_of_nat_pos k Hk) as Hp.
  assert (H0 : 0 <= sumQ k f).
  { apply Qle_trans with (sumQ k (fun _ => 0)).
    - rewrite sumQ_const. rewrite Qmult_0_r. apply Qle_refl.
    - apply sumQ_le_ext. intros l Hl. apply Hf. exact Hl. }
  assert (H1 : sumQ k f <= Q_of_nat k).
  { apply Qle_trans with (sumQ k (fun _ => 1)).
    - apply sumQ_le_ext. intros l Hl. apply Hf. exact Hl.
    - rewrite sumQ_const. rewrite Qmult_1_r. apply Qle_refl. }
  split.
  - apply Qle_shift_div_l; [exact Hp|]. rewrite Qmult_0_l. exact H0.
  - apply Qle_shift_div_r; [exact Hp|]. rewrite Qmult_1_l. exact H1.
Qed.

Lemma frac_tail_unit : forall Z q j,
  (1 <= nrows Z)%nat -> 0 <= frac_tail Z q j /\ frac_tail Z q j <= 1.
Proof.
  intros Z q j Hn. unfold frac_tail.
  apply fraction_bounds; [lia | apply count_rows_le].
Qed.

(** The [frac_tail_mean] column of a Q_study record is a fraction in
    [[0, 1]] (for [Z] with at least one column). *)
Theorem compute_qstudy_frac_tail_mean_unit : forall sqrtQ Z tail_q feats v,
  compute_qstudy_vectors sqrtQ Z tail_q = Some feats ->
  (1 <= ncols Z)%nat ->
  In ("frac_tail_mean"%string, v) feats ->
  0 <= v /\ v <= 1.
Proof.
  intros sqrtQ Z tail_q feats v Hc Hk Hin.
  unfold compute_qstudy_vectors in Hc.
  destruct (Nat.eqb (nrows Z) 0 || _) eqn:Eg; [discriminate|].
  apply orb_false_iff in Eg. destruct Eg as [En _].
  apply Nat.eqb_neq in En.
  injection Hc as <-.
  destruct Hin as [Hin|[Hin|[Hin|[Hin|Hin]]]]; try discriminate.
  - injection Hin as <-. apply mean_over_unit; [exact Hk|].
    intros l _. apply frac_tail_unit. lia.
  - apply in_flat_map in Hin. destruct Hin as [i [_ Hin]].
    destruct Hin as [Hin|[Hin|[Hin|[]]]]; discriminate.
Qed.

Lemma compute_qstudy_frac_tail_mean_unit_witness :
  let Z := Mat 3 2 (fun i j => Q_of_nat (i + j)) in
  compute_qstudy_vectors (fun x => x) Z (9 # 10) =
    Some (match compute_qstudy_vectors (fun x => x) Z (9 # 10) with
          | Some f => f | None => [] end) /\
  (1 <= ncols Z)%nat /\
  In ("frac_tail_mean"%string,
      mean_over (ncols Z) (frac_tail Z (9 # 10)))
     (match compute_qstudy_vectors (fun x => x) Z (9 # 10) with
      | Some f => f | None => [] end) /\
  (0 <= mean_over (ncols Z) (frac_tail Z (9 # 10)) /\
   mean_over (ncols Z) (frac_tail Z (9 # 10)) <= 1).
Proof.
  cbv zeta.
  split; [reflexivity|]. split; [simpl; lia|].
  assert (Hin : In ("frac_tail_mean"%string,
                    mean_over 2 (frac_tail (Mat 3 2 (fun i j => Q_of_nat (i + j)))
                                           (9 # 10)))
                   (match compute_qstudy_vectors (fun x => x)
                            (Mat 3 2 (fun i j => Q_of_nat (i + j))) (9 # 10) with
                    | Some f => f | None => [] end)).
  { cbn -[mean_over frac_tail]. right. right. left. reflexivity. }
  split; [exact Hin|].
  apply (compute_qstudy_frac_tail_mean_unit (fun x => x)
           (Mat 3 2 (fun i j => Q_of_nat (i + j))) (9 # 10)
           (match compute_qstudy_vectors (fun x => x)
                    (Mat 3 2 (fun i j => Q_of_nat (i + j))) (9 # 10) with
            | Some f => f | None => [] end));
    [reflexivity | simpl; lia | exact Hin].
Defined.

(** *** Further properties: class labels *)




(** *** Model persistence *)

Module PersistFacts.

Import Persist.

Local Open Scope string_scope.

Lemma bind_ok : forall A B (m : io A) (k : A -> io B) s a s',
  m s = (Ok a, s') -> bind m k s = k a s'.
Proof. intros A B m k s a s' E. unfold bind. rewrite E. reflexivity. Qed.

Lemma bind_err : forall A B (m : io A) (k : A -> io B) s e s',
  m s = (Err e, s') -> bind m k s = (Err e, s').
Proof. intros A B m k s e s' E. unfold bind. rewrite E. reflexivity. Qed.

Lemma append_inj_l : forall p a b, p ++ a = p ++ b -> a = b.
Proof.
  induction p as [|c p IH]; simpl; intros a b H; [exact H|].
  injection H. apply IH.
Qed.

Lemma join_eqb_diff : forall p a b, a <> b -> String.eqb (join p a) (join p b) = false.
Proof.
  intros p a b Hab. apply String.eqb_neq. intros E.
  apply append_inj_l in E. injection E. exact Hab.
Qed.

Lemma update_eq : forall s k v, update s k v k = v.
Proof. intros. unfold update. rewrite String.eqb_refl. reflexivity. Qed.

Lemma update_join_diff : forall s p a b v,
  a <> b -> update s (join p b) v (join p a) = s (join p a).
Proof.
  intros. unfold update. rewrite join_eqb_diff by assumption. reflexivity.
Qed.

Lemma write_file_ok : forall k f s u s',
  write_file k f s = (Ok u, s') -> s' = update s k (Some (File f)).
Proof.
  intros k f s u s' E. unfold write_file in E.
  destruct (s k) as [[|]|]; inversion E; reflexivity.
Qed.

Lemma shape0_ok : forall a s d s', shape0 a s = (Ok d, s') -> s' = s.
Proof.
  intros a s d s' E. unfold shape0, raise, ret in E.
  destruct (shape a); inversion E; reflexivity.
Qed.

(** [load] looks at the three array files and nothing else. *)
Lemma load_reads : forall s p m c ev,
  s (join p "mu.npy") = Some (File (NpyFile m)) ->
  s (join p "components.npy") = Some (File (NpyFile c)) ->
  s (join p "explained_var.npy") = Some (File (NpyFile ev)) ->
  load p s = (Ok (mk_SVDModel m c ev), s).
Proof.
  intros s p m c ev Hm Hc He. unfold load.
  rewrite (bind_ok _ _ _ _ s m s) by (unfold np_load; rewrite Hm; reflexivity).
  rewrite (bind_ok _ _ _ _ s c s) by (unfold np_load; rewrite Hc; reflexivity).
  rewrite (bind_ok _ _ _ _ s ev s) by (unfold np_load; rewrite He; reflexivity).
  reflexivity.
Qed.

Ltac io_step :=
  match goal with
  | H : fst (bind ?m ?k ?s) = Ok _ |- _ =>
      let E := fresh "E" in
      let r := fresh "r" in
      let s' := fresh "s" in
      destruct (m s) as [r s'] eqn:E;
      destruct r as [?a|?e];
      [ rewrite (bind_ok _ _ m k s _ _ E) in *
      | rewrite (bind_err _ _ m k s _ _ E) in H; discriminate H ];
      cbv beta in *
  end.

(** C5.  Whenever [m.save(p)] completes, [SVDModel.load(p)] on the
    resulting disk returns a model with exactly the arrays of [m]. *)
Theorem save_load_roundtrip : forall m p s,
  fst (save m p s) = Ok tt ->
  fst (load p (snd (save m p s))) = Ok m.
Proof.
  intros m p s H. unfold save in *.
  io_step. io_step. io_step. io_step. io_step. io_step.
  clear E. unfold np_save in E0, E1, E2.
  apply write_file_ok in E0. apply write_file_ok in E1.
  apply write_file_ok in E2. apply shape0_ok in E3. apply shape0_ok in E4.
  destruct (write_file _ _ _) as [r5 s9] eqn:E5.
  simpl in H. subst r5. apply write_file_ok in E5.
  subst. simpl snd.
  rewrite load_reads with (m := mu m) (c := components m)
                          (ev := explained_var m).
  - destruct m; reflexivity.
  - rewrite !update_join_diff by discriminate. apply update_eq.
  - rewrite !update_join_diff by discriminate. apply update_eq.
  - rewrite !update_join_diff by discriminate. apply update_eq.
Qed.

Lemma save_load_roundtrip_witness :
  fst (save demo_model "out/svd" empty_fs) = Ok tt /\
  fst (load "out/svd" (snd (save demo_model "out/svd" empty_fs))) = Ok demo_model.
Proof.
  split; [vm_compute; reflexivity|].
  apply save_load_roundtrip. vm_compute. reflexivity.
Defined.

(** C10.  [load] never reads [meta.json]: with the three arrays in place,
    it returns the same model whatever stands at [meta.json] (a valid
    record, malformed text, a directory, or nothing). *)
Theorem load_ignores_meta : forall s p m c ev meta,
  s (join p "mu.npy") = Some (File (NpyFile m)) ->
  s (join p "components.npy") = Some (File (NpyFile c)) ->
  s (join p "explained_var.npy") = Some (File (NpyFile ev)) ->
  fst (load p (update s (join p "meta.json") meta)) =
    Ok (mk_SVDModel m c ev).
Proof.
  intros s p m c ev meta Hm Hc He.
  rewrite load_reads with (m := m) (c := c) (ev := ev); [reflexivity| | |];
    rewrite update_join_diff by discriminate; assumption.
Qed.

Lemma load_ignores_meta_witness :
  let s := snd (save demo_model "out/svd" empty_fs) in
  s (join "out/svd" "mu.npy") = Some (File (NpyFile (mu demo_model))) /\
  s (join "out/svd" "components.npy") =
    Some (File (NpyFile (components demo_model))) /\
  s (join "out/svd" "explained_var.npy") =
    Some (File (NpyFile (explained_var demo_model))) /\
  fst (load "out/svd" (update s (join "out/svd" "meta.json")
                             (Some (File (TextFile "{not json")))))
    = Ok (mk_SVDModel (mu demo_model) (components demo_model)
                      (explained_var demo_model)).
Proof.
  cbv zeta.
  split; [vm_compute; reflexivity|]. split; [vm_compute; reflexivity|].
  split; [vm_compute; reflexivity|].
  apply load_ignores_meta; vm_compute; reflexivity.
Defined.

(** *** Further properties: saving *)

Lemma length_append_str : forall a b,
  String.length (a ++ b) = (String.length a + String.length b)%nat.
Proof.
  induction a as [|c a IH]; intros b; simpl; [reflexivity|]. rewrite IH.
  reflexivity.
Qed.

Lemma join_neq_path : forall p a, String.eqb (join p a) p = false.
Proof.
  intros p a. apply String.eqb_neq. intros E.
  apply (f_equal String.length) in E. unfold join in E.
  rewrite !length_append_str in E. simpl in E. lia.
Qed.

Lemma update_other : forall s k k' v,
  String.eqb k' k = false -> update s k v k' = s k'.
Proof. intros s k k' v E. unfold update. rewrite E. reflexivity. Qed.

Lemma parents_aux_shorter : forall p acc q, In q (parents_aux acc p) ->
  (String.length q < String.length acc + String.length p)%nat.
Proof.
  induction p as [|c rest IH]; intros acc q Hq; simpl in Hq; [contradiction|].
  assert (Hl : String.length (acc ++ String c EmptyString)
               = S (String.length acc)).
  { rewrite length_append_str. simpl. lia. }
  simpl. destruct (Ascii.eqb c "/"%char).
  - destruct Hq as [<-|Hq]; [lia|].
    apply IH in Hq. rewrite Hl in Hq. lia.
  - apply IH in Hq. rewrite Hl in Hq. lia.
Qed.

Lemma join_not_parent : forall p a, ~ In (join p a) (parents p).
Proof.
  intros p a H. apply parents_aux_shorter in H. unfold join in H.
  rewrite !length_append_str in H. simpl in H. lia.
Qed.

Lemma make_parents_other : forall qs s k, ~ In k qs ->
  make_parents s qs k = s k.
Proof.
  unfold make_parents.
  induction qs as [|q qs IH]; intros s k Hk; simpl; [reflexivity|].
  rewrite IH by (intros H; apply Hk; right; exact H).
  destruct (s q) eqn:E; [reflexivity|].
  apply update_other. apply String.eqb_neq. intros ->. apply Hk. left.
  reflexivity.
Qed.

Lemma mkdir_ok : forall p s, (forall f, s p <> Some (File f)) ->
  existsb (fun q => is_file (s q)) (parents p) = false ->
  exists s1, mkdir p s = (Ok tt, s1) /\
             forall a, s1 (join p a) = s (join p a).
Proof.
  intros p s Hp Ha. unfold mkdir. destruct (s p) as [[|f]|] eqn:E.
  - exists s. split; [reflexivity|]. intros; reflexivity.
  - exfalso. apply (Hp f). reflexivity.
  - rewrite Ha.
    exists (update (make_parents s (parents p)) p (Some Dir)).
    split; [reflexivity|]. intros a.
    rewrite update_other by apply join_neq_path.
    apply make_parents_other, join_not_parent.
Qed.

Lemma write_file_not_dir : forall k f s, s k <> Some Dir ->
  write_file k f s = (Ok tt, update s k (Some (File f))).
Proof.
  intros k f s H. unfold write_file. destruct (s k) as [[|g]|];
    [contradiction | reflexivity | reflexivity].
Qed.

Lemma shape0_shape : forall a s d s',
  shape0 a s = (Ok d, s') -> exists r, shape a = d :: r.
Proof.
  intros a s d s' E. unfold shape0, raise, ret in E.
  destruct (shape a) as [|d' r]; inversion E; subst. exists r. reflexivity.
Qed.

(** The four writes of [save] up to the shape reads, on a disk where
    [path] is not a file, no ancestor of it is a file and no array path is
    a directory. *)
Lemma save_arrays : forall m p s (k : nat -> io unit),
  (forall f, s p <> Some (File f)) ->
  existsb (fun q => is_file (s q)) (parents p) = false ->
  s (join p "mu.npy") <> Some Dir ->
  s (join p "components.npy") <> Some Dir ->
  s (join p "explained_var.npy") <> Some Dir ->
  exists s4,
    bind (mkdir p) (fun _ =>
    bind (np_save (join p "mu.npy") (mu m)) (fun _ =>
    bind (np_save (join p "components.npy") (components m)) (fun _ =>
    bind (np_save (join p "explained_var.npy") (explained_var m)) (fun _ =>
    bind (shape0 (mu m)) k)))) s = bind (shape0 (mu m)) k s4 /\
    s4 (join p "mu.npy") = Some (File (NpyFile (mu m))) /\
    s4 (join p "components.npy") = Some (File (NpyFile (components m))) /\
    s4 (join p "explained_var.npy") = Some (File (NpyFile (explained_var m))) /\
    s4 (join p "meta.json") = s (join p "meta.json").
Proof.
  intros m p s k Hp Ha Hmu Hc He.
  destruct (mkdir_ok p s Hp Ha) as [s1 [E1 Hs1]].
  rewrite (bind_ok _ _ _ _ s tt s1 E1).
  set (s2 := update s1 (join p "mu.npy") (Some (File (NpyFile (mu m))))).
  assert (E2 : np_save (join p "mu.npy") (mu m) s1 = (Ok tt, s2)).
  { apply write_file_not_dir. rewrite Hs1. exact Hmu. }
  rewrite (bind_ok _ _ _ _ s1 tt s2 E2).
  set (s3 := update s2 (join p "components.npy")
                    (Some (File (NpyFile (components m))))).
  assert (E3 : np_save (join p "components.npy") (components m) s2 = (Ok tt, s3)).
  { apply write_file_not_dir. unfold s2.
    rewrite update_join_diff by discriminate.
    rewrite Hs1. exact Hc. }
  rewrite (bind_ok _ _ _ _ s2 tt s3 E3).
  set (s4 := update s3 (join p "explained_var.npy")
                    (Some (File (NpyFile (explained_var m))))).
  assert (E4 : np_save (join p "explained_var.npy") (explained_var m) s3
               = (Ok tt, s4)).
  { apply write_file_not_dir. unfold s3, s2.
    rewrite !update_join_diff by discriminate.
    rewrite Hs1. exact He. }
  rewrite (bind_ok _ _ _ _ s3 tt s4 E4).
  exists s4. split; [reflexivity|]. unfold s4, s3, s2.
  split; [rewrite !update_join_diff by discriminate; apply update_eq|].
  split; [rewrite !update_join_diff by discriminate; apply update_eq|].
  split; [apply update_eq|].
  rewrite !update_join_diff by discriminate. apply Hs1.
Qed.

(** A [save] that completes has found [shape[0]] in both [mu] and
    [components], and [meta.json] then holds exactly
    [{"dims": mu.shape[0], "k": components.shape[0]}]. *)
Theorem save_writes_meta : forall m p s,
  fst (save m p s) = Ok tt ->
  exists dims r1 kc r2,
    shape (mu m) = dims :: r1 /\ shape (components m) = kc :: r2 /\
    snd (save m p s) (join p "meta.json") =
      Some (File (TextFile (json_meta dims kc))).
Proof.
  intros m p s H. unfold save in *.
  io_step. io_step. io_step. io_step. io_step. io_step.
  destruct (shape0_shape _ _ _ _ E3) as [r1 Hr1].
  destruct (shape0_shape _ _ _ _ E4) as [r2 Hr2].
  exists a3, r1, a4, r2. split; [exact Hr1|]. split; [exact Hr2|].
  destruct (write_file _ _ _) as [r5 s9] eqn:E5.
  simpl in H. subst r5. apply write_file_ok in E5. subst s9.
  apply update_eq.
Qed.

Lemma save_writes_meta_witness :
  fst (save demo_model "out/svd" empty_fs) = Ok tt /\
  exists dims r1 kc r2,
    shape (mu demo_model) = dims :: r1 /\
    shape (components demo_model) = kc :: r2 /\
    snd (save demo_model "out/svd" empty_fs) (join "out/svd" "meta.json") =
      Some (File (TextFile (json_meta dims kc))).
Proof.
  split; [vm_compute; reflexivity|].
  apply save_writes_meta. vm_compute. reflexivity.
Defined.

(** [save] of a model whose [mu] is 0-d, to a path that is not a file,
    has no ancestor that is a file, and whose three [.npy] targets are not
    directories, fails with [IndexError] at [mu.shape[0]], after the three
    arrays are written: [load] then
    succeeds on the half-written directory, and [meta.json] is left as it
    was (possibly stale). *)
Theorem save_scalar_mu_partial : forall m p s,
  shape (mu m) = [] ->
  (forall f, s p <> Some (File f)) ->
  existsb (fun q => is_file (s q)) (parents p) = false ->
  s (join p "mu.npy") <> Some Dir ->
  s (join p "components.npy") <> Some Dir ->
  s (join p "explained_var.npy") <> Some Dir ->
  fst (save m p s) = Err IndexError /\
  fst (load p (snd (save m p s))) = Ok m /\
  snd (save m p s) (join p "meta.json") = s (join p "meta.json").
Proof.
  intros m p s Hsh Hp Ha Hmu Hc He.
  destruct (save_arrays m p s
              (fun dims => bind (shape0 (components m)) (fun k =>
                 write_file (join p "meta.json") (TextFile (json_meta dims k))))
              Hp Ha Hmu Hc He) as [s4 [E [Hm [Hcs [Hes Hmeta]]]]].
  assert (Hsave : save m p s = (Err IndexError, s4)).
  { unfold save. rewrite E. unfold bind at 1. unfold shape0. rewrite Hsh.
    reflexivity. }
  rewrite Hsave. cbn [fst snd].
  split; [reflexivity|]. split; [|exact Hmeta].
  rewrite (load_reads s4 p (mu m) (components m) (explained_var m) Hm Hcs Hes).
  destruct m; reflexivity.
Qed.

Lemma save_scalar_mu_partial_witness :
  let m := mk_SVDModel (mk_ndarray [] [0]) (components demo_model)
                       (explained_var demo_model) in
  let s := update empty_fs (join "out/svd" "meta.json")
                  (Some (File (TextFile "old"))) in
  shape (mu m) = [] /\
  (forall f, s "out/svd" <> Some (File f)) /\
  existsb (fun q => is_file (s q)) (parents "out/svd") = false /\
  s (join "out/svd" "mu.npy") <> Some Dir /\
  s (join "out/svd" "components.npy") <> Some Dir /\
  s (join "out/svd" "explained_var.npy") <> Some Dir /\
  (fst (save m "out/svd" s) = Err IndexError /\
   fst (load "out/svd" (snd (save m "out/svd" s))) = Ok m /\
   snd (save m "out/svd" s) (join "out/svd" "meta.json") =
     s (join "out/svd" "meta.json")).
Proof.
  cbv zeta.
  assert (Hp : forall f, update empty_fs (join "out/svd" "meta.json")
                           (Some (File (TextFile "old"))) "out/svd"
                         <> Some (File f))
    by (intros f; vm_compute; discriminate).
  split; [reflexivity|]. split; [exact Hp|]. split; [vm_compute; reflexivity|].
  split; [vm_compute; discriminate|]. split; [vm_compute; discriminate|].
  split; [vm_compute; discriminate|].
  apply save_scalar_mu_partial;
    [reflexivity | exact Hp | vm_compute; reflexivity | vm_compute; discriminate
    | vm_compute; discriminate | vm_compute; discriminate].
Defined.

(** [save] to a path that is an existing file fails with
    [FileExistsError] at [mkdir] and leaves the disk untouched. *)
Theorem save_path_is_file : forall m p s f,
  s p = Some (File f) -> save m p s = (Err FileExistsError, s).
Proof.
  intros m p s f H. unfold save.
  apply bind_err. unfold mkdir. rewrite H. reflexivity.
Qed.

Lemma save_path_is_file_witness :
  let s := update empty_fs "out/svd" (Some (File (TextFile "x"))) in
  s "out/svd" = Some (File (TextFile "x")) /\
  save demo_model "out/svd" s = (Err FileExistsError, s).
Proof.
  cbv zeta. split; [reflexivity|].
  apply (save_path_is_file _ _ _ (TextFile "x")). reflexivity.
Defined.

(** A model returned by [fit_svd] always has a 1-d [mu] of length [d], so
    saving it (components at least 1-d, as the estimators return) never
    fails at [mu.shape[0]]: on a disk where the path is not a file, no
    ancestor of the path is a file and none of the four targets is a
    directory, it completes, and [meta.json] records
    [dims = d], the width of [Vn], and [k = components.shape[0]]. *)
Theorem fit_svd_save_meta : forall fe Vn k seed method p s kc r,
  shape (fst (fe (svd_estimator method (nrows Vn) (ncols Vn) k seed) Vn))
    = kc :: r ->
  (forall f, s p <> Some (File f)) ->
  existsb (fun q => is_file (s q)) (parents p) = false ->
  s (join p "mu.npy") <> Some Dir ->
  s (join p "components.npy") <> Some Dir ->
  s (join p "explained_var.npy") <> Some Dir ->
  s (join p "meta.json") <> Some Dir ->
  fst (save (fit_svd fe Vn k seed method) p s) = Ok tt /\
  snd (save (fit_svd fe Vn k seed method) p s) (join p "meta.json") =
    Some (File (TextFile (json_meta (ncols Vn) kc))).
Proof.
  intros fe Vn k seed method p s kc r Hsh Hp Ha Hmu Hc He Hmeta.
  set (m := fit_svd fe Vn k seed method).
  assert (Hm : shape (mu m) = [ncols Vn]).
  { unfold m, fit_svd. destruct (fe _ Vn). reflexivity. }
  assert (Hcm : shape (components m) = kc :: r).
  { unfold m, fit_svd. cbv zeta.
    destruct (fe (svd_estimator method (nrows Vn) (ncols Vn) k seed) Vn)
      as [c e].
    exact Hsh. }
  destruct (save_arrays m p s
              (fun dims => bind (shape0 (components m)) (fun k =>
                 write_file (join p "meta.json") (TextFile (json_meta dims k))))
              Hp Ha Hmu Hc He) as [s4 [E [_ [_ [_ Hm4]]]]].
  assert (Hsave : save m p s =
            (Ok tt, update s4 (join p "meta.json")
                      (Some (File (TextFile (json_meta (ncols Vn) kc)))))).
  { unfold save. rewrite E. unfold bind, shape0. rewrite Hm, Hcm.
    unfold ret. apply write_file_not_dir. rewrite Hm4. exact Hmeta. }
  rewrite Hsave. split; [reflexivity|]. apply update_eq.
Qed.

Lemma fit_svd_save_meta_witness :
  let fe := fun (_ : estimator) (_ : mat) =>
              (mk_ndarray [1%nat; 2%nat] [3 # 5; 4 # 5], mk_ndarray [1%nat] [1]) in
  shape (fst (fe (svd_estimator "auto" (nrows X_demo) (ncols X_demo) 1 42) X_demo))
    = 1%nat :: [2%nat] /\
  (forall f, empty_fs "out/svd" <> Some (File f)) /\
  existsb (fun q => is_file (empty_fs q)) (parents "out/svd") = false /\
  empty_fs (join "out/svd" "mu.npy") <> Some Dir /\
  empty_fs (join "out/svd" "components.npy") <> Some Dir /\
  empty_fs (join "out/svd" "explained_var.npy") <> Some Dir /\
  empty_fs (join "out/svd" "meta.json") <> Some Dir /\
  (fst (save (fit_svd fe X_demo 1 42 "auto") "out/svd" empty_fs) = Ok tt /\
   snd (save (fit_svd fe X_demo 1 42 "auto") "out/svd" empty_fs)
       (join "out/svd" "meta.json") =
     Some (File (TextFile (json_meta (ncols X_demo) 1)))).
Proof.
  cbv zeta.
  assert (Hp : forall f, empty_fs "out/svd" <> Some (File f))
    by (intros f; discriminate).
  split; [reflexivity|]. split; [exact Hp|]. split; [vm_compute; reflexivity|].
  do 4 (split; [discriminate|]).
  apply (fit_svd_save_meta _ _ _ _ _ _ _ _ [2%nat]);
    [reflexivity | exact Hp | vm_compute; reflexivity | discriminate | discriminate | discriminate
    | discriminate].
Defined.

End PersistFacts.

Example learn_std_example :
  let '(Ps, Pv) := learn_projectors_linear svd_std
                     (Mat 3 2 (fun i j => Q_of_nat (i * 2 + j * j))) None 1 in
  mat_eqb Pv (Mat 2 2 (fun i j => if Nat.eqb i 0 && Nat.eqb j 0 then 1 else 0))
  && mat_eqb Ps (Mat 2 2 (fun i j => if Nat.eqb i 1 && Nat.eqb j 1 then 1 else 0))
  = true.
Proof. vm_compute. reflexivity. Qed.

Example save_demo :
  fst (Persist.save Persist.demo_model "out/svd" Persist.empty_fs) = Persist.Ok tt.
Proof. vm_compute. reflexivity. Qed.
